(** * ConvTemporalGraphical (net/utils/tgcn.py): a shallow embedding

    The unit applies a temporal convolution to a sequence tensor, builds a
    data-dependent node-affinity matrix from the same input and aggregates
    the convolved features over graph nodes with [A + M].

    Tensors are modelled the way the framework stores a contiguous tensor:
    a shape and a flat row-major list of scalars.  Scalars are kept
    abstract behind the [Scalar] interface (the code computes on float32;
    nothing below depends on how [+], [*], [/] and [exp] round), and are
    instantiated with the real numbers where a claim is about exact
    arithmetic.

    The model describes runs in which the input, the adjacency and the
    parameters live on one accelerator device, as the code requires:
    device placement ([.cuda(x.get_device())]) then copies values
    unchanged and is not modelled.  [.contiguous()] is the identity on
    this representation.  The softmax is the quotient of an exponential by
    the sum of the exponentials along the axis. *)

From Stdlib Require Import List Arith PeanoNat Lia Bool.
From Stdlib Require Import Reals Lra.
Import ListNotations.

Set Implicit Arguments.

(** ** Scalars *)

Class Scalar (F : Type) : Type := {
  s0 : F;
  s1 : F;
  sadd : F -> F -> F;
  smul : F -> F -> F;
  sdiv : F -> F -> F;
  sexp : F -> F;
  sofnat : nat -> F
}.

(** Exact real arithmetic, the idealisation of float32. *)
#[export] Instance RScalar : Scalar R := {
  s0 := 0%R;
  s1 := 1%R;
  sadd := Rplus;
  smul := Rmult;
  sdiv := Rdiv;
  sexp := exp;
  sofnat := INR
}.

(** ** Python exceptions and fallible results *)

Inductive Exn : Type :=
| AssertionError
| IndexError
| ValueError
| RuntimeError
| ZeroDivisionError.

Inductive Res (A : Type) : Type :=
| Ok (a : A)
| Raise (e : Exn).

Arguments Ok {A} a.
Arguments Raise {A} e.

Definition rbind {A B : Type} (r : Res A) (k : A -> Res B) : Res B :=
  match r with
  | Ok a => k a
  | Raise e => Raise e
  end.

(** ** Shapes, row-major offsets and index ranges *)

Fixpoint sprod (sh : list nat) : nat :=
  match sh with
  | [] => 1
  | d :: sh' => d * sprod sh'
  end.

Fixpoint offset (sh idx : list nat) : nat :=
  match sh, idx with
  | _ :: sh', i :: idx' => i * sprod sh' + offset sh' idx'
  | _, _ => 0
  end.

Fixpoint inrange (sh idx : list nat) : bool :=
  match sh, idx with
  | [], [] => true
  | d :: sh', i :: idx' => (i <? d) && inrange sh' idx'
  | _, _ => false
  end.

(** Broadcasting aligns shapes on their last axis; the helpers work on
    reversed shapes so that the recursion starts there. *)
Fixpoint bshape_rev (a b : list nat) : option (list nat) :=
  match a, b with
  | [], _ => Some b
  | _, [] => Some a
  | x :: a', y :: b' =>
      match bshape_rev a' b' with
      | None => None
      | Some r =>
          if x =? y then Some (x :: r)
          else if x =? 1 then Some (y :: r)
          else if y =? 1 then Some (x :: r)
          else None
      end
  end.

Definition broadcast_shapes (a b : list nat) : option (list nat) :=
  option_map (@rev nat) (bshape_rev (rev a) (rev b)).

(** The index of an operand of shape [sh] read for the output index
    [idx]: axes of extent 1 are read at 0, missing leading axes dropped. *)
Fixpoint bidx_rev (sh idx : list nat) : list nat :=
  match sh, idx with
  | d :: sh', i :: idx' => (if d =? 1 then 0 else i) :: bidx_rev sh' idx'
  | _, _ => []
  end.

Definition bidx (sh idx : list nat) : list nat :=
  rev (bidx_rev (rev sh) (rev idx)).

(** A source of (reversed) shape [src] can be expanded to [dst]. *)
Fixpoint expandable_rev (src dst : list nat) : bool :=
  match src, dst with
  | [], _ => true
  | _ :: _, [] => false
  | x :: src', y :: dst' => ((x =? y) || (x =? 1)) && expandable_rev src' dst'
  end.

Definition expandable (src dst : list nat) : bool :=
  expandable_rev (rev src) (rev dst).

(** Item assignment drops the leading axes of extent 1 of its source. *)
Fixpoint strip1 (sh : list nat) : list nat :=
  match sh with
  | 1 :: sh' => strip1 sh'
  | _ => sh
  end.

Fixpoint index_of (j : nat) (l : list nat) : nat :=
  match l with
  | [] => 0
  | p :: l' => if p =? j then 0 else S (index_of j l')
  end.

Fixpoint set_nth (k v : nat) (l : list nat) : list nat :=
  match l, k with
  | [], _ => []
  | _ :: l', 0 => v :: l'
  | a :: l', S k' => a :: set_nth k' v l'
  end.

Section Tensors.

Context {F : Type} {SF : Scalar F}.

Record Tensor : Type := mkTensor {
  shape : list nat;
  data : list F
}.

(** The storage of a tensor holds one scalar per index. *)
Definition wf (t : Tensor) : Prop := length (data t) = sprod (shape t).

(** [t[idx]]: [None] when [idx] is not an index of [t]. *)
Definition get (t : Tensor) (idx : list nat) : option F :=
  if inrange (shape t) idx then nth_error (data t) (offset (shape t) idx)
  else None.

(** Unchecked read, used where the index is in range by construction. *)
Definition getd (t : Tensor) (idx : list nat) : F :=
  nth (offset (shape t) idx) (data t) s0.

(** The contiguous tensor of shape [sh] whose entry at [idx] is [f idx]. *)
Fixpoint tabulate (sh : list nat) (f : list nat -> F) : list F :=
  match sh with
  | [] => [f []]
  | d :: sh' =>
      flat_map (fun i => tabulate sh' (fun idx => f (i :: idx))) (seq 0 d)
  end.

Definition build (sh : list nat) (f : list nat -> F) : Tensor :=
  mkTensor sh (tabulate sh f).

(** Left-to-right accumulation of [f 0 + ... + f (n-1)]. *)
Definition ssum (n : nat) (f : nat -> F) : F :=
  fold_left (fun acc i => sadd acc (f i)) (seq 0 n) s0.

Definition ix (idx : list nat) (k : nat) : nat := nth k idx 0.

(** *** Tensor operations used by the unit *)

(** [torch.ones(size)] *)
Definition ones (sh : list nat) : Tensor :=
  mkTensor sh (repeat s1 (sprod sh)).

(** [t.size(k)] *)
Definition size (t : Tensor) (k : nat) : Res nat :=
  match nth_error (shape t) k with
  | Some d => Ok d
  | None => Raise IndexError
  end.

(** [a, b, c, d = t.size()] *)
Definition unpack4 (t : Tensor) : Res (nat * nat * nat * nat) :=
  match shape t with
  | [a; b; c; d] => Ok (a, b, c, d)
  | _ => Raise ValueError
  end.

(** [t.view(sh)] of a contiguous tensor: same storage, new shape. *)
Definition view (t : Tensor) (sh : list nat) : Res Tensor :=
  if sprod sh =? sprod (shape t) then Ok (mkTensor sh (data t))
  else Raise RuntimeError.

(** [t.permute(perm).contiguous()], [perm] a permutation of the axes. *)
Definition permute (t : Tensor) (perm : list nat) : Res Tensor :=
  if length perm =? length (shape t) then
    Ok (build (map (fun p => nth p (shape t) 0) perm)
          (fun idx =>
             getd t (map (fun j => ix idx (index_of j perm))
                       (seq 0 (length perm)))))
  else Raise RuntimeError.

(** [torch.matmul] of two rank-3 tensors: a matrix product per batch
    element (both operands carry the batch of the same input here). *)
Definition matmul (a b : Tensor) : Res Tensor :=
  match shape a, shape b with
  | [n; p; m], [n'; m'; q] =>
      if (n =? n') && (m =? m') then
        Ok (build [n; p; q]
              (fun idx =>
                 ssum m (fun j =>
                   smul (getd a [ix idx 0; ix idx 1; j])
                        (getd b [ix idx 0; j; ix idx 2]))))
      else Raise RuntimeError
  | _, _ => Raise RuntimeError
  end.

(** [t / c] for a Python integer [c] *)
Definition div_scalar (t : Tensor) (c : nat) : Tensor :=
  mkTensor (shape t) (map (fun a => sdiv a (sofnat c)) (data t)).

(** [t[i]] *)
Definition index0 (t : Tensor) (i : nat) : Res Tensor :=
  match shape t with
  | [] => Raise IndexError
  | d :: rest =>
      if i <? d then Ok (build rest (fun idx => getd t (i :: idx)))
      else Raise IndexError
  end.

(** [t[i] = src]: the slice [i] of [t] is overwritten with [src] expanded
    to the shape of the slice; returns the updated tensor. *)
Definition setitem0 (t : Tensor) (i : nat) (src : Tensor) : Res Tensor :=
  match shape t with
  | [] => Raise IndexError
  | d :: rest =>
      if i <? d then
        if expandable (strip1 (shape src)) rest then
          Ok (build (shape t)
                (fun idx =>
                   if ix idx 0 =? i then
                     getd (mkTensor (strip1 (shape src)) (data src))
                          (bidx (strip1 (shape src)) (tl idx))
                   else getd t idx))
        else Raise RuntimeError
      else Raise IndexError
  end.

(** [t.softmax(dim)]: a new tensor, [t] itself is left as it is. *)
Definition softmax (t : Tensor) (dim : nat) : Res Tensor :=
  if dim <? length (shape t) then
    Ok (build (shape t)
          (fun idx =>
             sdiv (sexp (getd t idx))
                  (ssum (nth dim (shape t) 0)
                        (fun j => sexp (getd t (set_nth dim j idx))))))
  else Raise IndexError.

(** [a + b] with broadcasting *)
Definition tadd (a b : Tensor) : Res Tensor :=
  match broadcast_shapes (shape a) (shape b) with
  | Some sh =>
      Ok (build sh
            (fun idx =>
               sadd (getd a (bidx (shape a) idx))
                    (getd b (bidx (shape b) idx))))
  | None => Raise RuntimeError
  end.

(** The extent of a contracted axis shared by two operands. *)
Definition bdim (a b : nat) : option nat :=
  if a =? b then Some a
  else if a =? 1 then Some b
  else if b =? 1 then Some a
  else None.

Definition b1 (d i : nat) : nat := if d =? 1 then 0 else i.

(** [torch.einsum('nkctv,kvw->nctw', (x, b))] *)
Definition einsum (x b : Tensor) : Res Tensor :=
  match shape x, shape b with
  | [n; k; c; t; v], [k'; v'; w] =>
      match bdim k k', bdim v v' with
      | Some kk, Some vv =>
          Ok (build [n; c; t; w]
                (fun idx =>
                   ssum kk (fun ik =>
                     ssum vv (fun iv =>
                       smul
                         (getd x [ix idx 0; b1 k ik; ix idx 1; ix idx 2;
                                  b1 v iv])
                         (getd b [b1 k' ik; b1 v' iv; ix idx 3])))))
      | _, _ => Raise RuntimeError
      end
  | _, _ => Raise RuntimeError
  end.

(** *** nn.Conv2d with a (k, 1) kernel

    Every convolution the unit creates has kernel [(k, 1)], stride
    [(s, 1)], padding [(p, 0)] and dilation [(d, 1)]: it convolves along
    the time axis only.  The weight has shape
    [(out_channels, in_channels, k, 1)]. *)
Record Conv2d : Type := mkConv2d {
  c_in : nat;
  c_out : nat;
  c_kernel : nat;
  c_stride : nat;
  c_padding : nat;
  c_dilation : nat;
  weight : Tensor;
  bias : option Tensor
}.

(** Length of the output sequence of a convolution. *)
Definition conv_out_len (cv : Conv2d) (t : nat) : nat :=
  (t + 2 * c_padding cv - c_dilation cv * (c_kernel cv - 1) - 1)
    / c_stride cv + 1.

(** The zero-padded input read by kernel tap [j] for output step [t']. *)
Definition padded (cv : Conv2d) (x : Tensor) (n i t' j v : nat) : F :=
  let pos := t' * c_stride cv + j * c_dilation cv in
  match shape x with
  | [_; _; t; _] =>
      if (c_padding cv <=? pos) && (pos - c_padding cv <? t)
      then getd x [n; i; pos - c_padding cv; v]
      else s0
  | _ => s0
  end.

Definition conv_value (cv : Conv2d) (x : Tensor) (n o t' v : nat) : F :=
  let acc :=
    ssum (c_in cv) (fun i =>
      ssum (c_kernel cv) (fun j =>
        smul (getd (weight cv) [o; i; j; 0]) (padded cv x n i t' j v))) in
  match bias cv with
  | Some b => sadd acc (getd b [o])
  | None => acc
  end.

(** The layer raises [RuntimeError] unless the input has the configured
    channels, the layer has an output channel, stride, dilation and kernel
    are positive, the kernel of width 1 fits the node axis, an input
    without elements is an empty batch or has no channel, and the dilated
    temporal kernel fits the padded sequence. *)
Definition conv2d (cv : Conv2d) (x : Tensor) : Res Tensor :=
  match shape x with
  | [n; c; t; v] =>
      if (c =? c_in cv) && (0 <? c_out cv)
         && (0 <? c_stride cv) && (0 <? c_dilation cv)
         && (0 <? c_kernel cv)
         && (0 <? v)
         && ((n =? 0) || (c =? 0) || (0 <? t))
         && (c_dilation cv * (c_kernel cv - 1) + 1 <=? t + 2 * c_padding cv)
      then
        Ok (build [n; c_out cv; conv_out_len cv t; v]
              (fun idx =>
                 conv_value cv x (ix idx 0) (ix idx 1) (ix idx 2) (ix idx 3)))
      else Raise RuntimeError
  | _ => Raise RuntimeError
  end.

End Tensors.

Arguments Tensor F : clear implicits.
Arguments Conv2d F : clear implicits.

(** ** The unit: configuration, parameters and methods *)

Section Unit.

Context {F : Type} {SF : Scalar F}.

(** The attributes [__init__] stores on the instance. *)
Record Module : Type := mkModule {
  kernel_size : nat;
  conv : Conv2d F;
  out_channels : nat;
  conv_a : Conv2d F;
  conv_b : Conv2d F
}.

(** [__init__]; the initial values of the parameters, drawn at random by
    the framework, are arguments.  The defaults of the source are
    [t_kernel_size = 1], [t_stride = 1], [t_padding = 0], [t_dilation = 1]
    and [bias = True]. *)
Definition init (in_channels out_channels kernel_size : nat)
    (t_kernel_size t_stride t_padding t_dilation : nat) (bias : bool)
    (w b wa ba wb bb : Tensor F) : Module :=
  {| kernel_size := kernel_size;
     conv := mkConv2d in_channels (out_channels * kernel_size)
               t_kernel_size t_stride t_padding t_dilation
               w (if bias then Some b else None);
     out_channels := out_channels;
     conv_a := mkConv2d in_channels out_channels 1 1 0 1 wa (Some ba);
     conv_b := mkConv2d in_channels out_channels 1 1 0 1 wb (Some bb) |}.

(** The three convolution layers of the unit. *)
Inductive Layer : Type :=
| L_conv
| L_conv_a
| L_conv_b.

Definition layer (m : Module) (l : Layer) : Conv2d F :=
  match l with
  | L_conv => conv m
  | L_conv_a => conv_a m
  | L_conv_b => conv_b m
  end.

(** What a method can read and write: the instance, and the record of
    the convolutions executed so far. *)
Record St : Type := mkSt {
  self : Module;
  calls : list Layer
}.

(** Methods run in a state-and-exception monad. *)
Definition M (A : Type) : Type := St -> St * Res A.

Definition ret {A : Type} (a : A) : M A := fun s => (s, Ok a).

Definition bind {A B : Type} (c : M A) (k : A -> M B) : M B :=
  fun s =>
    match c s with
    | (s', Ok a) => k a s'
    | (s', Raise e) => (s', Raise e)
    end.

Definition liftR {A : Type} (r : Res A) : M A := fun s => (s, r).

(** [self.<attribute>] *)
Definition attr {A : Type} (f : Module -> A) : M A :=
  fun s => (s, Ok (f (self s))).

(** [assert b] *)
Definition assert (b : bool) : M unit :=
  fun s => (s, if b then Ok tt else Raise AssertionError).

(** [self.<layer>(x)]: the convolution is executed with the parameters
    the instance holds at that moment. *)
Definition call (l : Layer) (x : Tensor F) : M (Tensor F) :=
  fun s =>
    (mkSt (self s) (calls s ++ [l]), conv2d (layer (self s) l) x).

(** [a // b] on Python integers *)
Definition floordiv (a b : nat) : Res nat :=
  if b =? 0 then Raise ZeroDivisionError else Ok (a / b).

Fixpoint for_each (l : list nat)
    (body : nat -> Tensor F -> Res (Tensor F)) (r : Tensor F)
    : Res (Tensor F) :=
  match l with
  | [] => Ok r
  | i :: l' => rbind (body i r) (for_each l' body)
  end.

Notation "x <- c ;; k" := (bind c (fun x => k))
  (at level 61, c at next level, right associativity).
Notation "' pat <- c ;; k" := (bind c (fun x => match x with pat => k end))
  (at level 61, pat pattern, c at next level, right associativity).

(** Lines 73-77 of [learnable_matrix]: the tensor [concat_matrix]. *)
Definition concat_matrix (x : Tensor F) : M (Tensor F) :=
  ' (N, C, T, V) <- liftR (unpack4 x) ;;
  ca <- call L_conv_a x ;;
  pa <- liftR (permute ca [0; 3; 1; 2]) ;;
  oc <- attr out_channels ;;
  A1 <- liftR (view pa [N; V; oc * T]) ;;
  cb <- call L_conv_b x ;;
  oc' <- attr out_channels ;;
  A2 <- liftR (view cb [N; oc' * T; V]) ;;
  mm <- liftR (matmul A1 A2) ;;
  last <- liftR (size A1 2) ;;
  ret (div_scalar mm last).

(** Lines 73-84 of [learnable_matrix]: the tensor [result] as it stands
    before the two softmax calls. *)
Definition result_matrix (x A : Tensor F) : M (Tensor F) :=
  ' (N, C, T, V) <- liftR (unpack4 x) ;;
  cm <- concat_matrix x ;;
  let result := ones (shape A) in
  if 2 <=? N then
    k <- liftR (size A 0) ;;
    liftR (for_each (seq 0 k)
             (fun i r => rbind (index0 cm 0) (fun src => setitem0 r i src))
             result)
  else ret cm.

Definition learnable_matrix (x A : Tensor F) : M (Tensor F) :=
  result <- result_matrix x A ;;
  _ <- liftR (softmax result 1) ;;
  liftR (softmax result 2).

Definition forward (x A : Tensor F) : M (Tensor F * Tensor F) :=
  k0 <- liftR (size A 0) ;;
  ks <- attr kernel_size ;;
  _ <- assert (k0 =? ks) ;;
  Mx <- learnable_matrix x A ;;
  x1 <- call L_conv x ;;
  ' (n, kc, t, v) <- liftR (unpack4 x1) ;;
  ks' <- attr kernel_size ;;
  q <- liftR (floordiv kc ks') ;;
  x2 <- liftR (view x1 [n; ks'; q; t; v]) ;;
  AM <- liftR (tadd A Mx) ;;
  x3 <- liftR (einsum x2 AM) ;;
  ret (x3, A).

End Unit.

Arguments Module F : clear implicits.
Arguments St F : clear implicits.

(** ** Quantities the statements below refer to *)

Section Statements.

Context {F : Type} {SF : Scalar F}.

(** Outcome of running a method from a state, and the state it leaves. *)
Definition outcome {A : Type} (c : M A) (s : St F) : Res A := snd (c s).

Definition final {A : Type} (c : M A) (s : St F) : St F := fst (c s).

(** Entry [(v, w)] of the affinity of batch element [n]: the product of
    row [v] of the flattened projection-A output with column [w] of the
    flattened projection-B output, divided by the contraction length.
    The flattened axis runs over [(c, t)] with [c] varying slower. *)
Definition affinity (m : Module F) (x : Tensor F) (T n v w : nat) : F :=
  sdiv
    (ssum (out_channels m * T) (fun j =>
       smul (conv_value (conv_a m) x n (j / T) (j mod T) v)
            (conv_value (conv_b m) x n (j / T) (j mod T) w)))
    (sofnat (out_channels m * T)).

(** One entry of a softmax over an axis of extent [V]. *)
Definition softmax_row (V : nat) (g : nat -> F) (w : nat) : F :=
  sdiv (sexp (g w)) (ssum V (fun j => sexp (g j))).

(** Entry [(v, w)] of the column-softmax of the affinity of batch
    element [n]. *)
Definition learned (m : Module F) (x : Tensor F) (T V n v w : nat) : F :=
  softmax_row V (affinity m x T n v) w.

(** Entry [(n, c, t, w)] of the first output of [forward]. *)
Definition aggregated (m : Module F) (x A : Tensor F) (T V n c t w : nat)
    : F :=
  ssum (kernel_size m) (fun k =>
    ssum V (fun v =>
      smul (conv_value (conv m) x n (k * out_channels m + c) t v)
           (sadd (getd A [k; v; w]) (learned m x T V 0 v w)))).

(** A sum of optional terms: defined when every term is. *)
Definition osum (n : nat) (f : nat -> option F) : option F :=
  fold_left
    (fun acc i =>
       match acc, f i with
       | Some a, Some b => Some (sadd a b)
       | _, _ => None
       end)
    (seq 0 n) (Some s0).

(** The sum over kernel partitions [k] and source nodes [v] of
    [feat[n, k, c, t, v] * (A[k, v, w] + Mt[sel k, v, w])], every entry
    read with a checked index. *)
Definition contraction (feat A Mt : Tensor F) (sel : nat -> nat)
    (K V n c t w : nat) : option F :=
  osum K (fun k =>
    osum V (fun v =>
      match get feat [n; k; c; t; v], get A [k; v; w],
            get Mt [sel k; v; w] with
      | Some f, Some a, Some m => Some (smul f (sadd a m))
      | _, _, _ => None
      end)).

(** Lines 64-67 of [forward]: the temporal convolution [cx] of [x] and
    its view [feat] with the channel axis split in two. *)
Definition temporal_features (m : Module F) (x cx feat : Tensor F)
    (N Cout Tout V : nat) : Prop :=
  conv2d (conv m) x = Ok cx /\
  shape cx = [N; kernel_size m * Cout; Tout; V] /\
  view cx [N; kernel_size m; Cout; Tout; V] = Ok feat /\
  forall n k c t v,
    n < N -> k < kernel_size m -> c < Cout -> t < Tout -> v < V ->
    exists a,
      get feat [n; k; c; t; v] = Some a /\
      get cx [n; k * Cout + c; t; v] = Some a.

(** What [forward] computes, with [sel k] the slice of the learned
    matrix that is added to the slice [k] of the adjacency. *)
Definition aggregation (sel : nat -> nat) (s : St F) (x A : Tensor F)
    (N Cout Tout V : nat) : Prop :=
  exists cx feat Mt Y,
    temporal_features (self s) x cx feat N Cout Tout V /\
    outcome (learnable_matrix x A) s = Ok Mt /\
    outcome (forward x A) s = Ok (Y, A) /\
    forall n c t w,
      n < N -> c < Cout -> t < Tout -> w < V ->
      exists y,
        get Y [n; c; t; w] = Some y /\
        contraction feat A Mt sel (kernel_size (self s)) V n c t w = Some y.

(** A method neither writes the instance nor reads anything else of the
    state. *)
Definition frame {A : Type} (c : M A) : Prop :=
  forall s : St F,
    self (fst (c s)) = self s /\
    forall s', self s' = self s -> snd (c s') = snd (c s).

End Statements.

(** ** What a method reads of the instance *)

Section Projections.

Context {F : Type}.

(** Two instances with the same projections and output channel count. *)
Definition same_projections (m m' : Module F) : Prop :=
  conv_a m = conv_a m' /\ conv_b m = conv_b m' /\
  out_channels m = out_channels m'.

(** A method whose outcome depends on the instance through its two
    projections and its output channel count only. *)
Definition reads_projections {A : Type} (c : M A) : Prop :=
  forall s s' : St F,
    same_projections (self s) (self s') ->
    snd (c s) = snd (c s') /\
    same_projections (self (fst (c s))) (self (fst (c s'))).

End Projections.

(** ** Concrete inputs over the reals *)

Definition rt (sh : list nat) (l : list R) : Tensor R := mkTensor sh l.

(** A unit with one input channel, one output channel and two kernel
    partitions, every weight 1 and every bias 0. *)
Definition unit2 : Module R :=
  init 1 1 2 1 1 0 1 true
    (rt [2; 1; 1; 1] [1; 1]%R) (rt [2] [0; 0]%R)
    (rt [1; 1; 1; 1] [1%R]) (rt [1] [0%R])
    (rt [1; 1; 1; 1] [1%R]) (rt [1] [0%R]).

Definition st2 : St R := mkSt unit2 [].

(** A batch of one sample, one channel, one time step, one node. *)
Definition x_one : Tensor R := rt [1; 1; 1; 1] [1%R].

(** A batch of two such samples. *)
Definition x_two : Tensor R := rt [2; 1; 1; 1] [1; 2]%R.

(** Two adjacency partitions over one node. *)
Definition A_two : Tensor R := rt [2; 1; 1] [0; 0]%R.

(** The same shape with other values. *)
Definition A_two' : Tensor R := rt [2; 1; 1] [1; 2]%R.

(** Three adjacency partitions over one node. *)
Definition A_three : Tensor R := rt [3; 1; 1] [0; 0; 0]%R.

(** The state of [unit2] after an earlier convolution. *)
Definition st2_later : St R := mkSt unit2 [L_conv].

Definition fill (sh : list nat) (c : R) : Tensor R :=
  rt sh (repeat c (sprod sh)).

(** The end-to-end example: 3 input channels, 4 output channels, 2 kernel
    partitions, default temporal hyperparameters; a batch of 2 sequences
    of length 6 over 5 nodes. *)
Definition unit342 : Module R :=
  init 3 4 2 1 1 0 1 true
    (fill [8; 3; 1; 1] 1%R) (fill [8] 0%R)
    (fill [4; 3; 1; 1] 1%R) (fill [4] 0%R)
    (fill [4; 3; 1; 1] 1%R) (fill [4] 0%R).

Definition st342 : St R := mkSt unit342 [].

Definition x_2365 : Tensor R := fill [2; 3; 6; 5] 1%R.

Definition A_255 : Tensor R := fill [2; 5; 5] 0%R.

(** A rank-3 tensor, and an input with two channels. *)
Definition x_rank3 : Tensor R := rt [1; 1; 1] [1%R].

Definition x_two_channels : Tensor R := rt [1; 2; 1; 1] [1; 2]%R.

(** One sample over two nodes, and two adjacency partitions over three. *)
Definition x_two_nodes : Tensor R := rt [1; 1; 1; 2] [1; 2]%R.

Definition A_233 : Tensor R := fill [2; 3; 3] 0%R.

(** [unit2] with a temporal kernel of width 3 and no padding. *)
Definition unit2_k3 : Module R :=
  init 1 1 2 3 1 0 1 true
    (rt [2; 1; 3; 1] [1; 1; 1; 1; 1; 1]%R) (rt [2] [0; 0]%R)
    (rt [1; 1; 1; 1] [1%R]) (rt [1] [0%R])
    (rt [1; 1; 1; 1] [1%R]) (rt [1] [0%R]).

Definition st2_k3 : St R := mkSt unit2_k3 [].

(** [unit2] with another bias in projection B. *)
Definition unit2_bias : Module R :=
  init 1 1 2 1 1 0 1 true
    (rt [2; 1; 1; 1] [1; 1]%R) (rt [2] [0; 0]%R)
    (rt [1; 1; 1; 1] [1%R]) (rt [1] [0%R])
    (rt [1; 1; 1; 1] [1%R]) (rt [1] [5%R]).

Definition st2_bias : St R := mkSt unit2_bias [].

(** Two batches of three samples that differ in the last sample only. *)
Definition x_three : Tensor R := rt [3; 1; 1; 1] [1; 2; 3]%R.

Definition x_three' : Tensor R := rt [3; 1; 1; 1] [1; 2; 7]%R.

(** A second layer for the end-to-end example: 4 input channels, 5 output
    channels, a temporal kernel of width 3 and stride 2. *)
Definition unit452 : Module R :=
  init 4 5 2 3 2 0 1 true
    (fill [10; 4; 3; 1] 1%R) (fill [10] 0%R)
    (fill [5; 4; 1; 1] 1%R) (fill [5] 0%R)
    (fill [5; 4; 1; 1] 1%R) (fill [5] 0%R).

Definition st452 : St R := mkSt unit452 [].

(** * Properties *)

(** ** Row-major indexing *)

Lemma inrange_cons (d : nat) (sh : list nat) (i : nat) (idx : list nat) :
  inrange (d :: sh) (i :: idx) = true <-> i < d /\ inrange sh idx = true.
Proof.
  simpl. rewrite andb_true_iff, Nat.ltb_lt. tauto.
Qed.

Lemma inrange_length (sh idx : list nat) :
  inrange sh idx = true -> length idx = length sh.
Proof.
  revert idx. induction sh as [|d sh IH]; intros [|i idx] H; simpl in *;
    try discriminate; auto.
  apply andb_true_iff in H. destruct H as [_ H]. f_equal. auto.
Qed.

Lemma offset_lt (sh idx : list nat) :
  inrange sh idx = true -> offset sh idx < sprod sh.
Proof.
  revert idx. induction sh as [|d sh IH]; intros [|i idx] H; simpl in *;
    try discriminate; try lia.
  apply andb_true_iff in H. destruct H as [Hi H].
  apply Nat.ltb_lt in Hi. specialize (IH idx H). nia.
Qed.

Section IndexFacts.

Context {F : Type} {SF : Scalar F}.

Lemma nth_error_blocks (g : nat -> list F) (m : nat) :
  (forall j, length (g j) = m) ->
  forall d a i o, i < d -> o < m ->
    nth_error (flat_map g (seq a d)) (i * m + o) = nth_error (g (a + i)) o.
Proof.
  intros Hg. induction d as [|d IH]; intros a i o Hi Ho; [lia|].
  simpl. destruct i as [|i].
  - simpl. rewrite Nat.add_0_r. apply nth_error_app1. rewrite Hg. exact Ho.
  - rewrite nth_error_app2 by (rewrite Hg; simpl; lia).
    rewrite Hg. replace (S i * m + o - m) with (i * m + o) by (simpl; lia).
    rewrite IH by lia. f_equal. f_equal. lia.
Qed.

Lemma length_flat_map_blocks (g : nat -> list F) (m : nat) :
  (forall j, length (g j) = m) ->
  forall d a, length (flat_map g (seq a d)) = d * m.
Proof.
  intros Hg. induction d as [|d IH]; intros a; simpl; auto.
  rewrite length_app, Hg, IH. reflexivity.
Qed.

Lemma length_tabulate (sh : list nat) (f : list nat -> F) :
  length (tabulate sh f) = sprod sh.
Proof.
  revert f. induction sh as [|d sh IH]; intros f; simpl; auto.
  apply length_flat_map_blocks. intros j. apply IH.
Qed.

Lemma nth_error_tabulate (sh : list nat) (f : list nat -> F) (idx : list nat) :
  inrange sh idx = true ->
  nth_error (tabulate sh f) (offset sh idx) = Some (f idx).
Proof.
  revert f idx. induction sh as [|d sh IH]; intros f [|i idx] H;
    simpl in H; try discriminate; simpl; auto.
  apply andb_true_iff in H. destruct H as [Hi H]. apply Nat.ltb_lt in Hi.
  rewrite (@nth_error_blocks _ (sprod sh)).
  - simpl. apply (IH (fun idx0 => f (i :: idx0))). exact H.
  - intros j. apply length_tabulate.
  - exact Hi.
  - apply offset_lt. exact H.
Qed.

Lemma tabulate_ext (sh : list nat) (f g : list nat -> F) :
  (forall idx, inrange sh idx = true -> f idx = g idx) ->
  tabulate sh f = tabulate sh g.
Proof.
  revert f g. induction sh as [|d sh IH]; intros f g H; simpl.
  - f_equal. apply H. reflexivity.
  - assert (Hs : forall l, (forall i, In i l -> i < d) ->
        flat_map (fun i => tabulate sh (fun idx => f (i :: idx))) l =
        flat_map (fun i => tabulate sh (fun idx => g (i :: idx))) l).
    { intros l. induction l as [|i l IHl]; intros Hl; simpl; auto.
      f_equal.
      - apply IH. intros idx Hidx. apply H. apply inrange_cons. split; auto.
        apply Hl. left. reflexivity.
      - apply IHl. intros j Hj. apply Hl. right. exact Hj. }
    apply Hs. intros i Hi. apply in_seq in Hi. lia.
Qed.

Lemma wf_build (sh : list nat) (f : list nat -> F) : wf (build sh f).
Proof. unfold wf, build. simpl. apply length_tabulate. Qed.

Lemma get_build (sh : list nat) (f : list nat -> F) (idx : list nat) :
  inrange sh idx = true -> get (build sh f) idx = Some (f idx).
Proof.
  intros H. unfold get, build. simpl. rewrite H.
  apply nth_error_tabulate. exact H.
Qed.

Lemma getd_build (sh : list nat) (f : list nat -> F) (idx : list nat) :
  inrange sh idx = true -> getd (build sh f) idx = f idx.
Proof.
  intros H. unfold getd, build. simpl.
  apply nth_error_nth. apply nth_error_tabulate. exact H.
Qed.

Lemma get_getd (t : Tensor F) (idx : list nat) :
  wf t -> inrange (shape t) idx = true -> get t idx = Some (getd t idx).
Proof.
  intros Hwf H. unfold get, getd. rewrite H.
  apply offset_lt in H. rewrite <- Hwf in H.
  destruct (nth_error (data t) (offset (shape t) idx)) eqn:E.
  - f_equal. symmetry. apply nth_error_nth. exact E.
  - apply nth_error_None in E. lia.
Qed.

(** Two reads agree when they hit the same storage cell. *)
Lemma getd_same_cell (t u : Tensor F) (idx jdx : list nat) :
  data t = data u -> offset (shape t) idx = offset (shape u) jdx ->
  getd t idx = getd u jdx.
Proof. intros Hd Ho. unfold getd. rewrite Hd, Ho. reflexivity. Qed.

End IndexFacts.

(** ** The state-and-exception monad *)

Section MonadFacts.

Context {F : Type} {SF : Scalar F}.

Lemma bind_ok {A B : Type} (c : M A) (k : A -> M B) (s s' : St F) (a : A) :
  c s = (s', Ok a) -> bind c k s = k a s'.
Proof. intros H. unfold bind. rewrite H. reflexivity. Qed.

Lemma bind_raise {A B : Type} (c : M A) (k : A -> M B) (s s' : St F)
    (e : Exn) :
  c s = (s', Raise e) -> bind c k s = (s', Raise e).
Proof. intros H. unfold bind. rewrite H. reflexivity. Qed.

Lemma bind_liftR_ok {A B : Type} (r : Res A) (k : A -> M B) (s : St F)
    (a : A) :
  r = Ok a -> bind (liftR r) k s = k a s.
Proof. intros ->. reflexivity. Qed.

End MonadFacts.

(** ** Tensor operations on well-shaped operands *)

Section OpFacts.

Context {F : Type} {SF : Scalar F}.

#[local] Arguments tabulate : simpl never.
#[local] Arguments ssum : simpl never.
#[local] Arguments getd : simpl never.
#[local] Arguments conv_value : simpl never.
#[local] Arguments Nat.div : simpl never.
#[local] Arguments Nat.modulo : simpl never.
#[local] Arguments Nat.mul : simpl never.
#[local] Arguments Nat.sub : simpl never.

Lemma ssum_ext (n : nat) (f g : nat -> F) :
  (forall i, i < n -> f i = g i) -> ssum n f = ssum n g.
Proof.
  intros H. unfold ssum.
  assert (Hs : forall l acc, (forall i, In i l -> i < n) ->
      fold_left (fun a i => sadd a (f i)) l acc =
      fold_left (fun a i => sadd a (g i)) l acc).
  { induction l as [|i l IH]; intros acc Hl; simpl; auto.
    rewrite (H i) by (apply Hl; left; reflexivity).
    apply IH. intros j Hj. apply Hl. right. exact Hj. }
  apply Hs. intros i Hi. apply in_seq in Hi. lia.
Qed.

Lemma map_tabulate (h : F -> F) (sh : list nat) (f : list nat -> F) :
  map h (tabulate sh f) = tabulate sh (fun idx => h (f idx)).
Proof.
  revert f. induction sh as [|d sh IH]; intros f; simpl; auto.
  unfold tabulate; fold (@tabulate F).
  induction (seq 0 d) as [|i l IHl]; simpl; auto.
  rewrite map_app, IH, IHl. reflexivity.
Qed.

Lemma build_ext (sh : list nat) (f g : list nat -> F) :
  (forall idx, inrange sh idx = true -> f idx = g idx) ->
  build sh f = build sh g.
Proof. intros H. unfold build. f_equal. apply tabulate_ext. exact H. Qed.

Lemma conv_out_len_pointwise (cv : Conv2d F) (t : nat) :
  c_kernel cv = 1 -> c_stride cv = 1 -> c_padding cv = 0 ->
  c_dilation cv = 1 -> 0 < t -> conv_out_len cv t = t.
Proof.
  intros Hk Hs Hp Hd Ht. unfold conv_out_len. rewrite Hk, Hs, Hp, Hd.
  rewrite Nat.div_1_r. lia.
Qed.

Lemma conv2d_ok (cv : Conv2d F) (x : Tensor F) (n c t v : nat) :
  shape x = [n; c; t; v] -> c = c_in cv ->
  0 < c_out cv -> 0 < t -> 0 < v ->
  0 < c_stride cv -> 0 < c_dilation cv -> 0 < c_kernel cv ->
  c_dilation cv * (c_kernel cv - 1) + 1 <= t + 2 * c_padding cv ->
  conv2d cv x =
  Ok (build [n; c_out cv; conv_out_len cv t; v]
        (fun idx =>
           conv_value cv x (ix idx 0) (ix idx 1) (ix idx 2) (ix idx 3))).
Proof.
  intros Hx Hc Ho Ht Hv Hs Hd Hk Hfit. unfold conv2d. rewrite Hx.
  apply Nat.eqb_eq in Hc. apply Nat.ltb_lt in Ho, Ht, Hv, Hs, Hd, Hk.
  apply Nat.leb_le in Hfit.
  rewrite Hc, Ho, Ht, Hv, Hs, Hd, Hk, Hfit, orb_true_r. reflexivity.
Qed.

(** Reading a tensor of shape [[n; v; c * t]] that shares its storage
    with one of shape [[n; v; c; t]]. *)
Lemma offset_flatten_last (n v c t i a j : nat) :
  0 < t ->
  offset [n; v; c * t] [i; a; j] = offset [n; v; c; t] [i; a; j / t; j mod t].
Proof.
  intros Ht. simpl. pose proof (Nat.div_mod_eq j t). nia.
Qed.

(** Reading a tensor of shape [[n; c * t; v]] that shares its storage
    with one of shape [[n; c; t; v]]. *)
Lemma offset_flatten_mid (n v c t i a j : nat) :
  0 < t ->
  offset [n; c * t; v] [i; j; a] = offset [n; c; t; v] [i; j / t; j mod t; a].
Proof.
  intros Ht. simpl. pose proof (Nat.div_mod_eq j t). nia.
Qed.

(** Reading a tensor of shape [[n; k; c; t; v]] that shares its storage
    with one of shape [[n; k * c; t; v]]. *)
Lemma offset_split_channels (n k c t v i ik ic it iv : nat) :
  offset [n; k; c; t; v] [i; ik; ic; it; iv] =
  offset [n; k * c; t; v] [i; ik * c + ic; it; iv].
Proof. simpl. nia. Qed.

Lemma div_mod_inrange (c t j : nat) :
  0 < t -> j < c * t -> j / t < c /\ j mod t < t.
Proof.
  intros Ht Hj. split.
  - apply Nat.Div0.div_lt_upper_bound. lia.
  - apply Nat.mod_upper_bound. lia.
Qed.

End OpFacts.

(** ** Running the methods on well-shaped inputs *)

Section RunFacts.

Context {F : Type} {SF : Scalar F}.

#[local] Arguments tabulate : simpl never.
#[local] Arguments ssum : simpl never.
#[local] Arguments getd : simpl never.
#[local] Arguments conv_value : simpl never.
#[local] Arguments Nat.div : simpl never.
#[local] Arguments Nat.modulo : simpl never.
#[local] Arguments Nat.mul : simpl never.
#[local] Arguments Nat.sub : simpl never.

Lemma inrange3 (a b c i j k : nat) :
  i < a -> j < b -> k < c -> inrange [a; b; c] [i; j; k] = true.
Proof.
  intros Hi Hj Hk. apply Nat.ltb_lt in Hi, Hj, Hk. simpl.
  rewrite Hi, Hj, Hk. reflexivity.
Qed.

Lemma inrange4 (a b c d i j k l : nat) :
  i < a -> j < b -> k < c -> l < d ->
  inrange [a; b; c; d] [i; j; k; l] = true.
Proof.
  intros Hi Hj Hk Hl. apply Nat.ltb_lt in Hi, Hj, Hk, Hl. simpl.
  rewrite Hi, Hj, Hk, Hl. reflexivity.
Qed.

Lemma inrange3_inv (a b c : nat) (idx : list nat) :
  inrange [a; b; c] idx = true ->
  exists i j k, idx = [i; j; k] /\ i < a /\ j < b /\ k < c.
Proof.
  destruct idx as [|i [|j [|k [|l idx]]]]; simpl; try discriminate;
    try (rewrite !andb_false_r; discriminate).
  rewrite !andb_true_iff, !Nat.ltb_lt. intros (Hi & Hj & Hk & _).
  exists i, j, k. auto.
Qed.

Lemma inrange4_inv (a b c d : nat) (idx : list nat) :
  inrange [a; b; c; d] idx = true ->
  exists i j k l, idx = [i; j; k; l] /\ i < a /\ j < b /\ k < c /\ l < d.
Proof.
  destruct idx as [|i [|j [|k [|l [|e idx]]]]]; simpl; try discriminate;
    try (rewrite !andb_false_r; discriminate).
  rewrite !andb_true_iff, !Nat.ltb_lt. intros (Hi & Hj & Hk & Hl & _).
  exists i, j, k, l. auto.
Qed.

Lemma getd_flatten_last (n v c t : nat) (f : list nat -> F) (i a j : nat) :
  0 < t -> i < n -> a < v -> j < c * t ->
  getd (mkTensor [n; v; c * t] (data (build [n; v; c; t] f))) [i; a; j] =
  f [i; a; j / t; j mod t].
Proof.
  intros Ht Hi Ha Hj. unfold getd, build. cbn [shape data].
  rewrite offset_flatten_last by exact Ht.
  apply nth_error_nth. apply nth_error_tabulate.
  destruct (div_mod_inrange c Ht Hj). apply inrange4; assumption.
Qed.

Lemma getd_flatten_mid (n v c t : nat) (f : list nat -> F) (i a j : nat) :
  0 < t -> i < n -> a < v -> j < c * t ->
  getd (mkTensor [n; c * t; v] (data (build [n; c; t; v] f))) [i; j; a] =
  f [i; j / t; j mod t; a].
Proof.
  intros Ht Hi Ha Hj. unfold getd, build. cbn [shape data].
  rewrite offset_flatten_mid by exact Ht.
  apply nth_error_nth. apply nth_error_tabulate.
  destruct (div_mod_inrange c Ht Hj). apply inrange4; assumption.
Qed.

Lemma view_ok (t : Tensor F) (sh : list nat) :
  sprod sh = sprod (shape t) -> view t sh = Ok (mkTensor sh (data t)).
Proof.
  intros H. unfold view. apply Nat.eqb_eq in H. rewrite H. reflexivity.
Qed.

Lemma matmul_ok (a b : Tensor F) (n p m q : nat) :
  shape a = [n; p; m] -> shape b = [n; m; q] ->
  matmul a b =
  Ok (build [n; p; q]
        (fun idx =>
           ssum m (fun j =>
             smul (getd a [ix idx 0; ix idx 1; j])
                  (getd b [ix idx 0; j; ix idx 2])))).
Proof.
  intros Ha Hb. unfold matmul. rewrite Ha, Hb, !Nat.eqb_refl. reflexivity.
Qed.

Lemma div_scalar_build (sh : list nat) (f : list nat -> F) (c : nat) :
  div_scalar (build sh f) c = build sh (fun idx => sdiv (f idx) (sofnat c)).
Proof.
  unfold div_scalar, build. cbn [shape data]. rewrite map_tabulate.
  reflexivity.
Qed.

Lemma concat_matrix_run (st : St F) (x : Tensor F)
    (Cin Cout K tk ts tp td : nat) (bs : bool) (w b wa ba wb bb : Tensor F)
    (N T V : nat) :
  self st = init Cin Cout K tk ts tp td bs w b wa ba wb bb ->
  0 < Cin /\ 0 < Cout /\ 0 < V ->
  shape x = [N; Cin; T; V] -> 0 < T ->
  concat_matrix x st =
  (mkSt (self st) (calls st ++ [L_conv_a; L_conv_b]),
   Ok (build [N; V; V]
         (fun idx => affinity (self st) x T (ix idx 0) (ix idx 1) (ix idx 2)))).
Proof.
  intros Hm Hpos Hx HT. unfold concat_matrix.
  erewrite bind_liftR_ok by (unfold unpack4; rewrite Hx; reflexivity).
  unfold bind at 1. unfold call at 1.
  rewrite (@conv2d_ok _ _ _ x N Cin T V)
    by (try exact Hx; try exact HT; rewrite ?Hm; simpl; lia).
  rewrite conv_out_len_pointwise by (try exact HT; rewrite Hm; reflexivity).
  unfold permute. simpl.
  unfold bind at 1, liftR at 1. unfold bind at 1, attr at 1. cbn [self].
  assert (Hoc : out_channels (self st) = Cout) by (rewrite Hm; reflexivity).
  assert (Hca : c_out (conv_a (self st)) = Cout) by (rewrite Hm; reflexivity).
  assert (Hcb : c_out (conv_b (self st)) = Cout) by (rewrite Hm; reflexivity).
  rewrite Hoc, Hca.
  rewrite view_ok by (cbn [shape build sprod]; ring).
  unfold bind at 1, liftR at 1. unfold bind at 1, call at 1. cbn [self calls layer].
  rewrite (@conv2d_ok _ _ _ x N Cin T V)
    by (try exact Hx; try exact HT; rewrite ?Hm; simpl; lia).
  rewrite conv_out_len_pointwise by (try exact HT; rewrite Hm; reflexivity).
  unfold bind at 1, attr at 1. cbn [self]. rewrite Hoc, Hcb.
  rewrite view_ok by (cbn [shape build sprod]; ring).
  unfold bind at 1, liftR at 1.
  erewrite bind_liftR_ok by (apply matmul_ok; reflexivity).
  unfold bind, liftR, size, ret. cbn [shape nth_error].
  rewrite <- app_assoc. cbn [app].
  f_equal. f_equal. rewrite div_scalar_build. apply build_ext.
  intros idx Hidx. apply inrange3_inv in Hidx.
  destruct Hidx as (n & v & u & -> & Hn & Hv & Hu).
  unfold affinity. rewrite Hoc. f_equal. apply ssum_ext. intros j Hj.
  cbn [ix nth].
  rewrite getd_flatten_last, getd_flatten_mid by assumption.
  cbn [ix nth].
  destruct (div_mod_inrange Cout HT Hj).
  rewrite !getd_build by (apply inrange4; assumption).
  reflexivity.
Qed.

Lemma tabulate_const (sh : list nat) (c : F) :
  tabulate sh (fun _ => c) = repeat c (sprod sh).
Proof.
  induction sh as [|d sh IH]; [reflexivity|].
  unfold tabulate; fold (@tabulate F). rewrite IH. cbn [sprod].
  generalize 0. induction d as [|d IHd]; intros a; [reflexivity|].
  cbn [seq flat_map]. rewrite IHd. rewrite <- repeat_app. f_equal.
Qed.

Lemma ones_build (sh : list nat) : ones sh = build sh (fun _ => s1).
Proof. unfold ones, build. rewrite tabulate_const. reflexivity. Qed.

Lemma index0_build (d : nat) (rest : list nat) (f : list nat -> F) (i : nat) :
  i < d ->
  index0 (build (d :: rest) f) i = Ok (build rest (fun idx => f (i :: idx))).
Proof.
  intros Hi. unfold index0. cbn [shape build].
  apply Nat.ltb_lt in Hi. rewrite Hi. f_equal. apply build_ext.
  intros idx Hidx. apply getd_build. apply inrange_cons. split; auto.
  apply Nat.ltb_lt. exact Hi.
Qed.

(** Reading a [(V, V)] source through the expansion item assignment
    performs. *)
Lemma getd_expand_slice (V : nat) (src : Tensor F) (v w : nat) :
  shape src = [V; V] -> v < V -> w < V ->
  getd (mkTensor (strip1 (shape src)) (data src))
       (bidx (strip1 (shape src)) [v; w]) = getd src [v; w].
Proof.
  intros Hs Hv Hw. rewrite Hs. unfold getd. rewrite Hs. cbn [shape data].
  destruct V as [|[|V]]; [lia| |].
  - assert (v = 0) by lia. assert (w = 0) by lia. subst. reflexivity.
  - reflexivity.
Qed.

Lemma expandable_slice (V : nat) : expandable (strip1 [V; V]) [V; V] = true.
Proof.
  destruct V as [|[|V]]; try reflexivity.
  unfold expandable. cbn [strip1 rev app expandable_rev].
  rewrite !Nat.eqb_refl. reflexivity.
Qed.

Lemma setitem0_slice (K V : nat) (r src : Tensor F) (i : nat) :
  shape r = [K; V; V] -> shape src = [V; V] -> i < K ->
  setitem0 r i src =
  Ok (build [K; V; V]
        (fun idx =>
           if ix idx 0 =? i then getd src [ix idx 1; ix idx 2]
           else getd r idx)).
Proof.
  intros Hr Hs Hi. unfold setitem0. rewrite Hr.
  apply Nat.ltb_lt in Hi. rewrite Hi. rewrite Hs at 1.
  rewrite expandable_slice. f_equal. apply build_ext.
  intros idx Hidx. apply inrange3_inv in Hidx.
  destruct Hidx as (k & v & w & -> & Hk & Hv & Hw).
  cbn [ix nth tl]. destruct (k =? i); [|reflexivity].
  apply getd_expand_slice with (V := V); assumption.
Qed.

(** The loop [for i in range(k): result[i] = concat_matrix[0]], started
    after [a] slices have been filled. *)
Lemma for_each_fill (N K V : nat) (g h : list nat -> F) :
  0 < N ->
  forall n a, a + n <= K ->
    for_each (seq a n)
      (fun i r =>
         rbind (index0 (build [N; V; V] g) 0) (fun src => setitem0 r i src))
      (build [K; V; V]
         (fun idx =>
            if ix idx 0 <? a then g [0; ix idx 1; ix idx 2] else h idx)) =
    Ok (build [K; V; V]
          (fun idx =>
             if ix idx 0 <? a + n then g [0; ix idx 1; ix idx 2] else h idx)).
Proof.
  intros HN.
  set (body := fun (i : nat) (r : Tensor F) =>
         rbind (index0 (build [N; V; V] g) 0) (fun src => setitem0 r i src)).
  induction n as [|n IH]; intros a Ha.
  - rewrite Nat.add_0_r. reflexivity.
  - cbn [seq for_each]. unfold body at 1.
    rewrite index0_build by exact HN. cbn [rbind].
    rewrite (@setitem0_slice K V) by (try reflexivity; lia). cbn [rbind].
    replace (a + S n) with (S a + n) by lia.
    rewrite <- IH by lia. f_equal. apply build_ext.
    intros idx Hidx. apply inrange3_inv in Hidx.
    destruct Hidx as (k & v & w & -> & Hk & Hv & Hw). cbn [ix nth].
    rewrite (getd_build [V; V])
      by (apply inrange_cons; split; [|apply inrange_cons; split];
          assumption || reflexivity).
    rewrite (getd_build [K; V; V]) by (apply inrange3; assumption).
    cbn [ix nth].
    destruct (Nat.eqb_spec k a) as [->|Hne].
    + replace (a <? S a) with true by (symmetry; apply Nat.ltb_lt; lia).
      reflexivity.
    + destruct (Nat.ltb_spec k a) as [Hlt|Hge].
      * replace (k <? S a) with true by (symmetry; apply Nat.ltb_lt; lia).
        reflexivity.
      * replace (k <? S a) with false by (symmetry; apply Nat.ltb_ge; lia).
        reflexivity.
Qed.

Lemma result_matrix_run (st : St F) (x A : Tensor F)
    (Cin Cout K tk ts tp td : nat) (bs : bool) (w b wa ba wb bb : Tensor F)
    (N T V : nat) :
  self st = init Cin Cout K tk ts tp td bs w b wa ba wb bb ->
  0 < Cin /\ 0 < Cout /\ 0 < V ->
  shape x = [N; Cin; T; V] -> shape A = [K; V; V] -> 0 < N -> 0 < T ->
  result_matrix x A st =
  (mkSt (self st) (calls st ++ [L_conv_a; L_conv_b]),
   Ok (build [if 2 <=? N then K else N; V; V]
         (fun idx =>
            affinity (self st) x T (if 2 <=? N then 0 else ix idx 0)
              (ix idx 1) (ix idx 2)))).
Proof.
  intros Hm Hpos Hx HA HN HT. unfold result_matrix.
  erewrite bind_liftR_ok by (unfold unpack4; rewrite Hx; reflexivity).
  cbv beta iota.
  erewrite bind_ok by (eapply concat_matrix_run; eassumption).
  cbv beta.
  destruct (2 <=? N) eqn:E.
  - erewrite bind_liftR_ok by (unfold size; rewrite HA; reflexivity).
    unfold liftR. f_equal. rewrite HA, ones_build.
    set (G := fun idx : list nat =>
           affinity (self st) x T (ix idx 0) (ix idx 1) (ix idx 2)).
    assert (Hinit : build [K; V; V] (fun _ => s1) =
                    build [K; V; V]
                      (fun idx =>
                         if ix idx 0 <? 0 then G [0; ix idx 1; ix idx 2]
                         else s1))
      by (apply build_ext; reflexivity).
    rewrite Hinit. rewrite for_each_fill by (exact HN || lia). f_equal.
    apply build_ext. intros idx Hidx. apply inrange3_inv in Hidx.
    destruct Hidx as (k & v & u & -> & Hk & Hv & Hu). cbn [ix nth Nat.add].
    apply Nat.ltb_lt in Hk. rewrite Hk. reflexivity.
  - reflexivity.
Qed.

Lemma softmax_last_build (a b c : nat) (f : list nat -> F) :
  softmax (build [a; b; c] f) 2 =
  Ok (build [a; b; c]
        (fun idx =>
           softmax_row c (fun j => f [ix idx 0; ix idx 1; j]) (ix idx 2))).
Proof.
  unfold softmax. cbn [shape build length Nat.ltb Nat.leb nth].
  f_equal. apply build_ext. intros idx Hidx. apply inrange3_inv in Hidx.
  destruct Hidx as (k & v & w & -> & Hk & Hv & Hw).
  cbn [ix nth set_nth]. unfold softmax_row.
  rewrite getd_build by (apply inrange3; assumption).
  f_equal. apply ssum_ext. intros j Hj.
  rewrite getd_build by (apply inrange3; assumption). reflexivity.
Qed.

Lemma learnable_matrix_run (st : St F) (x A : Tensor F)
    (Cin Cout K tk ts tp td : nat) (bs : bool) (w b wa ba wb bb : Tensor F)
    (N T V : nat) :
  self st = init Cin Cout K tk ts tp td bs w b wa ba wb bb ->
  0 < Cin /\ 0 < Cout /\ 0 < V ->
  shape x = [N; Cin; T; V] -> shape A = [K; V; V] -> 0 < N -> 0 < T ->
  learnable_matrix x A st =
  (mkSt (self st) (calls st ++ [L_conv_a; L_conv_b]),
   Ok (build [if 2 <=? N then K else N; V; V]
         (fun idx =>
            learned (self st) x T V (if 2 <=? N then 0 else ix idx 0)
              (ix idx 1) (ix idx 2)))).
Proof.
  intros Hm Hpos Hx HA HN HT. unfold learnable_matrix.
  erewrite bind_ok by (eapply result_matrix_run; eassumption).
  erewrite bind_liftR_ok by (unfold softmax; reflexivity).
  rewrite softmax_last_build. reflexivity.
Qed.

Lemma b1_inrange (d i : nat) : i < d -> b1 d i = i.
Proof.
  intros Hi. unfold b1. destruct (Nat.eqb_spec d 1); [lia|reflexivity].
Qed.

Lemma broadcast_slices (K KM V : nat) :
  KM = K \/ KM = 1 -> broadcast_shapes [K; V; V] [KM; V; V] = Some [K; V; V].
Proof.
  intros H. unfold broadcast_shapes. cbn [rev app bshape_rev].
  rewrite !Nat.eqb_refl.
  destruct H as [->| ->].
  - rewrite Nat.eqb_refl. reflexivity.
  - destruct (K =? 1); reflexivity.
Qed.

Lemma bidx3 (a b c i j k : nat) :
  bidx [a; b; c] [i; j; k] = [b1 a i; b1 b j; b1 c k].
Proof. reflexivity. Qed.

Lemma tadd_slices (A Mx : Tensor F) (K KM V : nat) :
  shape A = [K; V; V] -> shape Mx = [KM; V; V] -> KM = K \/ KM = 1 ->
  tadd A Mx =
  Ok (build [K; V; V]
        (fun idx =>
           sadd (getd A [ix idx 0; ix idx 1; ix idx 2])
                (getd Mx [b1 KM (ix idx 0); ix idx 1; ix idx 2]))).
Proof.
  intros HA HM HK. unfold tadd. rewrite HA, HM, broadcast_slices by exact HK.
  f_equal. apply build_ext. intros idx Hidx. apply inrange3_inv in Hidx.
  destruct Hidx as (k & v & w & -> & Hk & Hv & Hw).
  rewrite !bidx3. cbn [ix nth].
  rewrite (@b1_inrange K k), !(@b1_inrange V) by assumption. reflexivity.
Qed.

Lemma einsum_ok (x2 b : Tensor F) (n k c t v w : nat) :
  shape x2 = [n; k; c; t; v] -> shape b = [k; v; w] ->
  einsum x2 b =
  Ok (build [n; c; t; w]
        (fun idx =>
           ssum k (fun ik =>
             ssum v (fun iv =>
               smul (getd x2 [ix idx 0; ik; ix idx 1; ix idx 2; iv])
                    (getd b [ik; iv; ix idx 3]))))).
Proof.
  intros Hx Hb. unfold einsum. rewrite Hx, Hb. unfold bdim.
  rewrite !Nat.eqb_refl. f_equal. apply build_ext. intros idx _.
  apply ssum_ext. intros ik Hik. apply ssum_ext. intros iv Hiv.
  rewrite !(@b1_inrange k), !(@b1_inrange v) by assumption. reflexivity.
Qed.

Lemma getd_split_channels (n k c t v : nat) (f : list nat -> F)
    (i ik ic it iv : nat) :
  i < n -> ik < k -> ic < c -> it < t -> iv < v ->
  getd (mkTensor [n; k; c; t; v] (data (build [n; c * k; t; v] f)))
       [i; ik; ic; it; iv] =
  f [i; ik * c + ic; it; iv].
Proof.
  intros Hi Hk Hc Ht Hv. unfold getd, build. cbn [shape data].
  rewrite offset_split_channels. rewrite (Nat.mul_comm k c).
  apply nth_error_nth. apply nth_error_tabulate.
  apply inrange4; try assumption. nia.
Qed.

Lemma forward_run (st : St F) (x A : Tensor F)
    (Cin Cout K tk ts tp td : nat) (bs : bool) (w b wa ba wb bb : Tensor F)
    (N T V : nat) :
  self st = init Cin Cout K tk ts tp td bs w b wa ba wb bb ->
  0 < Cin /\ 0 < Cout /\ 0 < V ->
  shape x = [N; Cin; T; V] -> shape A = [K; V; V] ->
  0 < N -> 0 < T -> 0 < K -> 0 < tk -> 0 < ts -> 0 < td ->
  td * (tk - 1) + 1 <= T + 2 * tp ->
  forward x A st =
  (mkSt (self st) (calls st ++ [L_conv_a; L_conv_b; L_conv]),
   Ok (build [N; Cout; conv_out_len (conv (self st)) T; V]
         (fun idx =>
            aggregated (self st) x A T V
              (ix idx 0) (ix idx 1) (ix idx 2) (ix idx 3)),
       A)).
Proof.
  intros Hm Hpos Hx HA HN HT HK Htk Hts Htd Hfit. unfold forward.
  erewrite bind_liftR_ok by (unfold size; rewrite HA; reflexivity).
  unfold bind at 1, attr at 1.
  assert (Hks : kernel_size (self st) = K) by (rewrite Hm; reflexivity).
  assert (Hoc : out_channels (self st) = Cout) by (rewrite Hm; reflexivity).
  rewrite Hks. unfold bind at 1, assert at 1. rewrite Nat.eqb_refl.
  erewrite bind_ok by (eapply learnable_matrix_run; eassumption).
  unfold bind at 1, call at 1. cbn [self calls layer].
  rewrite (@conv2d_ok _ _ _ x N Cin T V)
    by (try exact Hx; rewrite ?Hm; simpl;
        first [assumption | reflexivity | nia]).
  set (Tout := conv_out_len (conv (self st)) T).
  assert (Hco : c_out (conv (self st)) = Cout * K) by (rewrite Hm; reflexivity).
  rewrite Hco.
  erewrite bind_liftR_ok by reflexivity. cbv beta iota.
  unfold bind at 1, attr at 1. cbn [self]. rewrite Hks.
  erewrite bind_liftR_ok.
  2:{ unfold floordiv. destruct (Nat.eqb_spec K 0); [lia|].
      rewrite Nat.div_mul by lia. reflexivity. }
  rewrite view_ok by (cbn [shape build sprod]; ring).
  unfold bind at 1, liftR at 1.
  erewrite bind_liftR_ok.
  2:{ apply tadd_slices with (KM := if 2 <=? N then K else N);
        [exact HA|reflexivity|].
      destruct (Nat.leb_spec 2 N); [left; reflexivity|right; lia]. }
  erewrite bind_liftR_ok by (apply einsum_ok; reflexivity).
  unfold ret. rewrite <- app_assoc. cbn [app]. f_equal. f_equal. f_equal.
  apply build_ext. intros idx Hidx. apply inrange4_inv in Hidx.
  destruct Hidx as (n & c & t & u & -> & Hn & Hc & Ht & Hu).
  cbn [ix nth]. unfold aggregated. rewrite Hks, Hoc.
  apply ssum_ext. intros k Hk. apply ssum_ext. intros v Hv.
  rewrite getd_split_channels by assumption.
  rewrite getd_build by (apply inrange3; assumption).
  cbn [ix nth]. f_equal. f_equal.
  rewrite getd_build.
  - cbn [ix nth]. destruct (Nat.leb_spec 2 N); [reflexivity|].
    assert (N = 1) by lia. subst N. reflexivity.
  - apply inrange3; try assumption.
    destruct (Nat.leb_spec 2 N).
    + rewrite b1_inrange; assumption.
    + assert (N = 1) by lia. subst N. unfold b1. simpl. lia.
Qed.

Lemma osum_some (n : nat) (f : nat -> option F) (g : nat -> F) :
  (forall i, i < n -> f i = Some (g i)) -> osum n f = Some (ssum n g).
Proof.
  intros H. unfold osum, ssum.
  assert (Hs : forall l acc, (forall i, In i l -> i < n) ->
      fold_left
        (fun a i =>
           match a, f i with
           | Some a0, Some b => Some (sadd a0 b)
           | _, _ => None
           end) l (Some acc) =
      Some (fold_left (fun a i => sadd a (g i)) l acc)).
  { induction l as [|i l IH]; intros acc Hl; [reflexivity|].
    cbn [fold_left]. rewrite (H i) by (apply Hl; left; reflexivity).
    apply IH. intros j Hj. apply Hl. right. exact Hj. }
  apply Hs. intros i Hi. apply in_seq in Hi. lia.
Qed.

Lemma osum_none (n : nat) (f : nat -> option F) (i : nat) :
  i < n -> f i = None -> osum n f = None.
Proof.
  intros Hi Hf. unfold osum.
  assert (Hnone : forall l,
      fold_left
        (fun a j =>
           match a, f j with
           | Some a0, Some b => Some (sadd a0 b)
           | _, _ => None
           end) l None = None).
  { induction l as [|j l IH]; [reflexivity|]. cbn [fold_left]. exact IH. }
  assert (Hs : forall l acc, In i l ->
      fold_left
        (fun a j =>
           match a, f j with
           | Some a0, Some b => Some (sadd a0 b)
           | _, _ => None
           end) l acc = None).
  { induction l as [|j l IH]; intros acc Hin; [destruct Hin|].
    cbn [fold_left]. destruct Hin as [->|Hin].
    - rewrite Hf. destruct acc; apply Hnone.
    - apply IH. exact Hin. }
  apply Hs. apply in_seq. lia.
Qed.

Lemma get_split_channels (n k c t v : nat) (f : list nat -> F)
    (i ik ic it iv : nat) :
  i < n -> ik < k -> ic < c -> it < t -> iv < v ->
  get (mkTensor [n; k; c; t; v] (data (build [n; c * k; t; v] f)))
      [i; ik; ic; it; iv] =
  Some (f [i; ik * c + ic; it; iv]).
Proof.
  intros Hi Hk Hc Ht Hv. rewrite get_getd.
  - f_equal. apply getd_split_channels; assumption.
  - unfold wf, build. cbn [shape data]. rewrite length_tabulate.
    cbn [sprod]. ring.
  - cbn [shape]. apply Nat.ltb_lt in Hi, Hk, Hc, Ht, Hv. cbn [inrange].
    rewrite Hi, Hk, Hc, Ht, Hv. reflexivity.
Qed.

Lemma temporal_features_run (m : Module F) (x : Tensor F)
    (Cin Cout K tk ts tp td : nat) (bs : bool) (w b wa ba wb bb : Tensor F)
    (N T V : nat) :
  m = init Cin Cout K tk ts tp td bs w b wa ba wb bb ->
  0 < Cin /\ 0 < Cout /\ 0 < V ->
  shape x = [N; Cin; T; V] -> 0 < T -> 0 < K ->
  0 < tk -> 0 < ts -> 0 < td ->
  td * (tk - 1) + 1 <= T + 2 * tp ->
  let cx := build [N; Cout * K; conv_out_len (conv m) T; V]
              (fun idx =>
                 conv_value (conv m) x (ix idx 0) (ix idx 1) (ix idx 2)
                   (ix idx 3)) in
  temporal_features m x cx
    (mkTensor [N; K; Cout; conv_out_len (conv m) T; V] (data cx))
    N Cout (conv_out_len (conv m) T) V.
Proof.
  intros Hm Hpos Hx HT HK Htk Hts Htd Hfit cx. unfold temporal_features.
  assert (Hks : kernel_size m = K) by (rewrite Hm; reflexivity).
  rewrite Hks. split; [|split; [|split]].
  - rewrite (@conv2d_ok _ _ _ x N Cin T V)
      by (try exact Hx; rewrite ?Hm; simpl;
        first [assumption | reflexivity | nia]).
    subst cx. do 3 f_equal. rewrite Hm. reflexivity.
  - subst cx. cbn [shape build]. rewrite (Nat.mul_comm K Cout). reflexivity.
  - apply view_ok. subst cx. cbn [shape build sprod]. ring.
  - intros n k c t v Hn Hk Hc Ht Hv.
    exists (conv_value (conv m) x n (k * Cout + c) t v). subst cx. split.
    + rewrite get_split_channels by assumption. reflexivity.
    + rewrite get_build by (apply inrange4; try assumption; nia).
      reflexivity.
Qed.

Lemma aggregation_run (sel : nat -> nat) (st : St F) (x A : Tensor F)
    (Cin Cout K tk ts tp td : nat) (bs : bool) (w b wa ba wb bb : Tensor F)
    (N T V : nat) :
  self st = init Cin Cout K tk ts tp td bs w b wa ba wb bb ->
  0 < Cin /\ 0 < Cout /\ 0 < V ->
  shape x = [N; Cin; T; V] -> shape A = [K; V; V] -> wf A ->
  0 < N -> 0 < T -> 0 < K -> 0 < tk -> 0 < ts -> 0 < td ->
  td * (tk - 1) + 1 <= T + 2 * tp ->
  (forall k, k < K -> sel k < (if 2 <=? N then K else N)) ->
  aggregation sel st x A N Cout (conv_out_len (conv (self st)) T) V.
Proof.
  intros Hm Hpos Hx HA HwA HN HT HK Htk Hts Htd Hfit Hsel.
  pose proof (@temporal_features_run (self st) x Cin Cout K tk ts tp td bs
                w b wa ba wb bb N T V Hm Hpos Hx HT HK Htk Hts Htd Hfit)
    as Hfeat.
  cbv zeta in Hfeat.
  unfold aggregation. do 4 eexists. split; [exact Hfeat|].
  assert (Hks : kernel_size (self st) = K) by (rewrite Hm; reflexivity).
  assert (Hoc : out_channels (self st) = Cout) by (rewrite Hm; reflexivity).
  split; [|split].
  - unfold outcome. erewrite learnable_matrix_run by eassumption. reflexivity.
  - unfold outcome. erewrite forward_run by eassumption. reflexivity.
  - intros n c t u Hn Hc Ht Hu.
    exists (aggregated (self st) x A T V n c t u). split.
    + rewrite get_build by (apply inrange4; assumption). reflexivity.
    + unfold contraction, aggregated. rewrite Hks, Hoc.
      apply osum_some. intros k Hk. apply osum_some. intros v Hv.
      rewrite get_split_channels by assumption.
      rewrite (@get_getd _ _ A) by (try exact HwA; rewrite HA; apply inrange3;
                               assumption).
      rewrite get_build by (apply inrange3; auto).
      cbn [ix nth]. destruct (Nat.leb_spec 2 N) as [_|Hlt]; [reflexivity|].
      specialize (Hsel k Hk). replace (2 <=? N) with false in Hsel
        by (symmetry; apply Nat.leb_gt; exact Hlt).
      replace (sel k) with 0 by lia. reflexivity.
Qed.

Lemma get_softmax (r Mt : Tensor F) (dim : nat) :
  softmax r dim = Ok Mt ->
  shape Mt = shape r /\
  forall idx, inrange (shape r) idx = true ->
    get Mt idx =
    Some (sdiv (sexp (getd r idx))
            (ssum (nth dim (shape r) 0)
               (fun j => sexp (getd r (set_nth dim j idx))))).
Proof.
  unfold softmax. destruct (dim <? length (shape r)); [|discriminate].
  intros H. injection H as <-. split; [reflexivity|].
  intros idx Hidx. rewrite get_build by exact Hidx. reflexivity.
Qed.

Lemma build_inj_values (sh : list nat) (f g : list nat -> F) (idx : list nat) :
  build sh f = build sh g -> inrange sh idx = true -> f idx = g idx.
Proof.
  intros H Hidx. rewrite <- (getd_build sh f idx Hidx), H.
  apply getd_build. exact Hidx.
Qed.

(** Two inputs with the same first batch element are read alike there. *)
Lemma sample0_reads (x x' : Tensor F) (N C T V i t v : nat) :
  shape x = [N; C; T; V] -> shape x' = [N; C; T; V] -> 0 < N ->
  index0 x' 0 = index0 x 0 -> i < C -> t < T -> v < V ->
  getd x' [0; i; t; v] = getd x [0; i; t; v].
Proof.
  intros Hx Hx' HN H Hi Ht Hv. unfold index0 in H. rewrite Hx, Hx' in H.
  apply Nat.ltb_lt in HN. rewrite HN in H.
  assert (H' : build [C; T; V] (fun idx => getd x' (0 :: idx)) =
               build [C; T; V] (fun idx => getd x (0 :: idx)))
    by congruence.
  apply (@build_inj_values _ _ _ [i; t; v] H'). apply inrange3; assumption.
Qed.

Lemma conv_value_sample0 (cv : Conv2d F) (x x' : Tensor F)
    (N T V o t v : nat) :
  shape x = [N; c_in cv; T; V] -> shape x' = [N; c_in cv; T; V] -> 0 < N ->
  index0 x' 0 = index0 x 0 -> v < V ->
  conv_value cv x' 0 o t v = conv_value cv x 0 o t v.
Proof.
  intros Hx Hx' HN H Hv. unfold conv_value.
  assert (Hacc :
    ssum (c_in cv) (fun i =>
      ssum (c_kernel cv) (fun j =>
        smul (getd (weight cv) [o; i; j; 0]) (padded cv x' 0 i t j v))) =
    ssum (c_in cv) (fun i =>
      ssum (c_kernel cv) (fun j =>
        smul (getd (weight cv) [o; i; j; 0]) (padded cv x 0 i t j v)))).
  { apply ssum_ext. intros i Hi. apply ssum_ext. intros j Hj. f_equal.
    unfold padded. rewrite Hx, Hx'.
    destruct (c_padding cv <=? t * c_stride cv + j * c_dilation cv);
      [|reflexivity].
    cbn [andb].
    destruct (Nat.ltb_spec
                (t * c_stride cv + j * c_dilation cv - c_padding cv) T);
      [|reflexivity].
    eapply sample0_reads; eassumption. }
  rewrite Hacc. reflexivity.
Qed.

Lemma affinity_sample0 (st : St F) (x x' : Tensor F)
    (Cin Cout K tk ts tp td : nat) (bs : bool) (w b wa ba wb bb : Tensor F)
    (N T V v u : nat) :
  self st = init Cin Cout K tk ts tp td bs w b wa ba wb bb ->
  shape x = [N; Cin; T; V] -> shape x' = [N; Cin; T; V] -> 0 < N ->
  index0 x' 0 = index0 x 0 -> v < V -> u < V ->
  affinity (self st) x' T 0 v u = affinity (self st) x T 0 v u.
Proof.
  intros Hm Hx Hx' HN H Hv Hu. unfold affinity. f_equal.
  apply ssum_ext. intros j Hj.
  assert (Ha : c_in (conv_a (self st)) = Cin) by (rewrite Hm; reflexivity).
  assert (Hb : c_in (conv_b (self st)) = Cin) by (rewrite Hm; reflexivity).
  f_equal; eapply conv_value_sample0; try eassumption;
    rewrite ?Ha, ?Hb; eassumption.
Qed.



End RunFacts.

(** ** Methods and the state of the instance *)

Section FrameFacts.

Context {F : Type} {SF : Scalar F}.

Lemma frame_ret {A : Type} (a : A) : frame (F := F) (ret a).
Proof. intros s. split; [reflexivity|]. intros s' _. reflexivity. Qed.

Lemma frame_liftR {A : Type} (r : Res A) : frame (F := F) (liftR r).
Proof. intros s. split; [reflexivity|]. intros s' _. reflexivity. Qed.

Lemma frame_attr {A : Type} (f : Module F -> A) : frame (attr f).
Proof.
  intros s. split; [reflexivity|]. intros s' H. unfold attr. cbn [snd].
  rewrite H. reflexivity.
Qed.

Lemma frame_assert (b : bool) : frame (F := F) (assert b).
Proof. intros s. split; [reflexivity|]. intros s' _. reflexivity. Qed.

Lemma frame_call (l : Layer) (x : Tensor F) : frame (call l x).
Proof.
  intros s. split; [reflexivity|]. intros s' H. unfold call. cbn [snd].
  rewrite H. reflexivity.
Qed.

Lemma frame_bind {A B : Type} (c : @M F A) (k : A -> @M F B) :
  frame c -> (forall a, frame (k a)) -> frame (bind c k).
Proof.
  intros Hc Hk s. destruct (Hc s) as [Hself Hout]. unfold bind. split.
  - destruct (c s) as [s1 [a|e]]; cbn [fst snd] in *.
    + destruct (Hk a s1) as [H1 _]. congruence.
    + exact Hself.
  - intros s' Hs'. specialize (Hout s' Hs').
    destruct (Hc s') as [Hself' _].
    destruct (c s) as [s1 [a|e]]; destruct (c s') as [s1' [a'|e']];
      cbn [fst snd] in *; try discriminate.
    + injection Hout as ->. destruct (Hk a s1) as [_ H2]. apply H2. congruence.
    + injection Hout as ->. reflexivity.
Qed.

Create HintDb frame.

#[local] Hint Resolve frame_ret frame_liftR frame_attr frame_assert
  frame_call : frame.

Ltac frame_step :=
  first
    [ match goal with a : (_ * _)%type |- _ => destruct a end
    | solve [auto with frame]
    | apply frame_bind; [|intros] ].

Lemma frame_concat_matrix (x : Tensor F) : frame (concat_matrix x).
Proof. unfold concat_matrix. repeat frame_step. Qed.

#[local] Hint Resolve frame_concat_matrix : frame.

Lemma frame_result_matrix (x A : Tensor F) : frame (result_matrix x A).
Proof.
  unfold result_matrix. repeat frame_step.
  match goal with |- context [2 <=? ?n] => destruct (2 <=? n) end;
    repeat frame_step.
Qed.

#[local] Hint Resolve frame_result_matrix : frame.

Lemma frame_learnable_matrix (x A : Tensor F) : frame (learnable_matrix x A).
Proof. unfold learnable_matrix. repeat frame_step. Qed.

#[local] Hint Resolve frame_learnable_matrix : frame.

Lemma frame_forward (x A : Tensor F) : frame (forward x A).
Proof. unfold forward. repeat frame_step. Qed.

End FrameFacts.

(** ** The claims, for any scalar arithmetic *)

Section Claims.

Context {F : Type} {SF : Scalar F}.

(** C1, amended: on an input whose extents are all positive [forward]
    convolves [x] along time into [K * C_out]
    channels, views the channel axis as [(K, C_out)] with the kernel
    partition varying slower, and the output at [(n, c, t, w)] is the sum
    over [k] and [v] of [feat[n, k, c, t, v] * (A[k, v, w] + M[k', v, w])],
    [M] the matrix [learnable_matrix] returns, where [k' = k], except for
    a batch of one, where [M] has the single slice [k' = 0]. *)
Theorem forward_aggregates (st : St F) (x A : Tensor F)
    (Cin Cout K tk ts tp td : nat) (bs : bool) (w b wa ba wb bb : Tensor F)
    (N T V : nat) :
  self st = init Cin Cout K tk ts tp td bs w b wa ba wb bb ->
  0 < Cin /\ 0 < Cout /\ 0 < V ->
  shape x = [N; Cin; T; V] -> shape A = [K; V; V] -> wf A ->
  0 < N -> 0 < T -> 0 < K -> 0 < tk -> 0 < ts -> 0 < td ->
  td * (tk - 1) + 1 <= T + 2 * tp ->
  aggregation (fun k => if N =? 1 then 0 else k) st x A
    N Cout (conv_out_len (conv (self st)) T) V.
Proof.
  intros. eapply aggregation_run; try eassumption.
  intros k Hk. destruct (Nat.eqb_spec N 1) as [->|Hne].
  - simpl. lia.
  - replace (2 <=? N) with true by (symmetry; apply Nat.leb_le; lia).
    exact Hk.
Qed.
(** C2: on an input [x] of shape [(N, C_in, T_in, V)] with every extent
    and [C_out] positive and an
    adjacency [A] of shape [(K, V, V)], [forward] returns a first output of
    shape [(N, C_out, T_out, V)], where [T_out] is the convolution output
    length [(T_in + 2 * padding - dilation * (kernel - 1) - 1) / stride + 1],
    and returns [A] itself as its second output. *)
Theorem forward_shape (st : St F) (x A : Tensor F)
    (Cin Cout K tk ts tp td : nat) (bs : bool) (w b wa ba wb bb : Tensor F)
    (N T V : nat) :
  self st = init Cin Cout K tk ts tp td bs w b wa ba wb bb ->
  0 < Cin /\ 0 < Cout /\ 0 < V ->
  shape x = [N; Cin; T; V] -> shape A = [K; V; V] ->
  0 < N -> 0 < T -> 0 < K -> 0 < tk -> 0 < ts -> 0 < td ->
  td * (tk - 1) + 1 <= T + 2 * tp ->
  exists Y,
    outcome (forward x A) st = Ok (Y, A) /\
    shape Y = [N; Cout; (T + 2 * tp - td * (tk - 1) - 1) / ts + 1; V] /\
    wf Y.
Proof.
  intros Hm Hpos Hx HA HN HT HK Htk Hts Htd Hfit.
  eexists. split; [|split].
  - unfold outcome. erewrite forward_run by eassumption. reflexivity.
  - cbn [shape build]. rewrite Hm. reflexivity.
  - apply wf_build.
Qed.

(** C5: when the leading dimension of [A] differs from the configured
    kernel size, [forward] raises [AssertionError] and leaves the state as
    it found it: no convolution has been executed.  This holds for every
    input [x], whatever its batch size. *)
Theorem forward_rejects_kernel_mismatch (st : St F) (x A : Tensor F)
    (d : nat) (rest : list nat) :
  shape A = d :: rest -> d <> kernel_size (self st) ->
  outcome (forward x A) st = Raise AssertionError /\
  final (forward x A) st = st.
Proof.
  intros HA Hd. unfold outcome, final, forward.
  erewrite bind_liftR_ok by (unfold size; rewrite HA; reflexivity).
  unfold bind, attr, assert.
  apply Nat.eqb_neq in Hd. rewrite Hd. split; reflexivity.
Qed.

(** C9: [learnable_matrix] reads the shape of its adjacency argument
    only: two adjacency tensors of one shape give the same run, whatever
    their values. *)
Theorem learnable_matrix_reads_shape_only (st : St F) (x A A' : Tensor F) :
  shape A = shape A' ->
  learnable_matrix x A st = learnable_matrix x A' st.
Proof.
  intros H. unfold learnable_matrix, result_matrix, size.
  rewrite H. reflexivity.
Qed.

(** C3: for every input, [learnable_matrix] behaves as the softmax over
    axis 2 applied to the tensor [result] as it stands before the two
    softmax calls; the softmax over axis 1 is computed and dropped.  Every
    entry of a returned matrix is the exponential of the same entry of
    [result] divided by the sum of the exponentials along axis 2. *)
Theorem row_softmax_is_discarded (st : St F) (x A : Tensor F) :
  learnable_matrix x A st =
  bind (result_matrix x A) (fun r => liftR (softmax r 2)) st /\
  forall Mt, outcome (learnable_matrix x A) st = Ok Mt ->
    exists r,
      outcome (result_matrix x A) st = Ok r /\
      softmax r 2 = Ok Mt /\
      shape Mt = shape r /\
      forall idx, inrange (shape r) idx = true ->
        get Mt idx =
        Some (sdiv (sexp (getd r idx))
                (ssum (nth 2 (shape r) 0)
                   (fun j => sexp (getd r (set_nth 2 j idx))))).
Proof.
  assert (Heq : learnable_matrix x A st =
                bind (result_matrix x A) (fun r => liftR (softmax r 2)) st).
  { unfold learnable_matrix, bind.
    destruct (result_matrix x A st) as [s' [r|e]]; [|reflexivity].
    unfold liftR, softmax.
    destruct (Nat.ltb_spec 1 (length (shape r))) as [H1|H1]; [reflexivity|].
    replace (2 <? length (shape r)) with false
      by (symmetry; apply Nat.ltb_ge; lia).
    reflexivity. }
  split; [exact Heq|].
  intros Mt HM. unfold outcome in *. rewrite Heq in HM. unfold bind in HM.
  destruct (result_matrix x A st) as [s' [r|e]]; [|discriminate].
  exists r. cbn [snd liftR] in HM. 
  destruct (get_softmax _ _ HM) as [Hs Hv]. auto.
Qed.

(** C8: [forward] leaves the instance (kernel size, output channels and
    the parameters of the three convolutions) exactly as it was, and a
    later call has the outcome it would have had without the earlier one:
    nothing else is kept from call to call. *)
Theorem forward_leaves_unit_unchanged (st : St F) (x A : Tensor F) :
  self (final (forward x A) st) = self st /\
  forall x' A',
    outcome (forward x' A') (final (forward x A) st) =
    outcome (forward x' A') st.
Proof.
  destruct (frame_forward x A st) as [Hself _]. split; [exact Hself|].
  intros x' A'. unfold outcome. destruct (frame_forward x' A' st) as [_ Hout].
  apply Hout. exact Hself.
Qed.
(** C4: for a batch of at least two samples, with channels, time steps
    and nodes all positive, the tensor [result] built
    before the softmax calls has shape [(K, V, V)]; each of its [K] slices
    is slice 0 of [concat_matrix], the scaled product of the two
    projections of sample 0; and an input that differs from [x] only in
    the samples after the first gives the same tensor. *)
Theorem result_matrix_broadcasts_sample0 (st : St F) (x A : Tensor F)
    (Cin Cout K tk ts tp td : nat) (bs : bool) (w b wa ba wb bb : Tensor F)
    (N T V : nat) :
  self st = init Cin Cout K tk ts tp td bs w b wa ba wb bb ->
  0 < Cin /\ 0 < Cout /\ 0 < V ->
  shape x = [N; Cin; T; V] -> shape A = [K; V; V] -> 2 <= N -> 0 < T ->
  exists cm r,
    outcome (concat_matrix x) st = Ok cm /\
    outcome (result_matrix x A) st = Ok r /\
    shape cm = [N; V; V] /\
    shape r = [K; V; V] /\
    (forall k v u, k < K -> v < V -> u < V ->
       get cm [0; v; u] = Some (affinity (self st) x T 0 v u) /\
       get r [k; v; u] = Some (affinity (self st) x T 0 v u)) /\
    (forall x', shape x' = shape x -> index0 x' 0 = index0 x 0 ->
       outcome (result_matrix x' A) st = Ok r).
Proof.
  intros Hm Hpos Hx HA HN HT.
  assert (HN0 : 0 < N) by lia.
  assert (Hge : (2 <=? N) = true) by (apply Nat.leb_le; exact HN).
  do 2 eexists. split; [|split; [|split; [|split; [|split]]]].
  - unfold outcome. erewrite concat_matrix_run by eassumption. reflexivity.
  - unfold outcome. erewrite result_matrix_run by eassumption. reflexivity.
  - reflexivity.
  - cbn [shape build]. rewrite Hge. reflexivity.
  - intros k v u Hk Hv Hu. split.
    + rewrite get_build by (apply inrange3; assumption). reflexivity.
    + rewrite get_build
        by (rewrite Hge; apply inrange3; assumption).
      rewrite Hge. reflexivity.
  - intros x' Hx' H0. rewrite Hx in Hx'. unfold outcome.
    erewrite result_matrix_run by eassumption. cbn [snd]. f_equal.
    apply build_ext. intros idx Hidx. rewrite Hge in *.
    apply inrange3_inv in Hidx.
    destruct Hidx as (k & v & u & -> & Hk & Hv & Hu). cbn [ix nth].
    eapply affinity_sample0; eassumption.
Qed.

(** C10: for a batch of one sample with positive extents and more than
    one kernel partition the
    matrix [learnable_matrix] returns has shape [(1, V, V)], not
    [(K, V, V)]; in [A + M] its single slice is added to each of the [K]
    slices of [A], and [forward] aggregates with that sum. *)
Theorem single_sample_matrix_is_broadcast (st : St F) (x A : Tensor F)
    (Cin Cout K tk ts tp td : nat) (bs : bool) (w b wa ba wb bb : Tensor F)
    (T V : nat) :
  self st = init Cin Cout K tk ts tp td bs w b wa ba wb bb ->
  0 < Cin /\ 0 < Cout /\ 0 < V ->
  shape x = [1; Cin; T; V] -> shape A = [K; V; V] -> wf A ->
  0 < T -> 1 < K -> 0 < tk -> 0 < ts -> 0 < td ->
  td * (tk - 1) + 1 <= T + 2 * tp ->
  exists Mt AM,
    outcome (learnable_matrix x A) st = Ok Mt /\
    shape Mt = [1; V; V] /\
    shape Mt <> [K; V; V] /\
    tadd A Mt = Ok AM /\
    shape AM = [K; V; V] /\
    (forall k v u, k < K -> v < V -> u < V ->
       exists a m,
         get A [k; v; u] = Some a /\
         get Mt [0; v; u] = Some m /\
         get AM [k; v; u] = Some (sadd a m)) /\
    aggregation (fun _ => 0) st x A
      1 Cout (conv_out_len (conv (self st)) T) V.
Proof.
  intros Hm Hpos Hx HA HwA HT HK Htk Hts Htd Hfit.
  do 2 eexists. split; [|split; [|split; [|split; [|split; [|split]]]]].
  - unfold outcome.
    erewrite learnable_matrix_run with (N := 1) (T := T)
      by (eassumption || lia).
    reflexivity.
  - reflexivity.
  - cbn [shape build]. simpl. intros H. injection H as H. lia.
  - apply tadd_slices with (K := K) (KM := 1) (V := V);
      [exact HA|reflexivity|right; reflexivity].
  - reflexivity.
  - intros k v u Hk Hv Hu.
    exists (getd A [k; v; u]), (learned (self st) x T V 0 v u).
    split; [|split].
    + apply get_getd; [exact HwA|]. rewrite HA. apply inrange3; assumption.
    + rewrite get_build by (apply inrange3; simpl; lia || assumption).
      reflexivity.
    + rewrite get_build by (apply inrange3; assumption). cbn [ix nth].
      f_equal. f_equal.
      rewrite getd_build by (apply inrange3; unfold b1; simpl; lia || assumption).
      reflexivity.
  - eapply aggregation_run; try eassumption; try lia.
    intros k _. simpl. lia.
Qed.
End Claims.

(** ** The claims about exact arithmetic, over the reals *)

Section Real.

#[local] Arguments tabulate : simpl never.
#[local] Arguments ssum : simpl never.
#[local] Arguments getd : simpl never.
#[local] Arguments conv_value : simpl never.

Open Scope R_scope.

Lemma fold_sum_div (f : nat -> R) (c : R) (l : list nat) (acc : R) :
  fold_left (fun a i => a + f i / c) l (acc / c) =
  fold_left (fun a i => a + f i) l acc / c.
Proof.
  revert acc. induction l as [|i l IH]; intros acc; [reflexivity|].
  cbn [fold_left]. rewrite <- IH. f_equal. unfold Rdiv. ring.
Qed.

Lemma ssum_div (n : nat) (f : nat -> R) (c : R) :
  ssum n (fun i => f i / c) = ssum n f / c.
Proof.
  unfold ssum. cbn [s0 sadd RScalar]. rewrite <- fold_sum_div.
  f_equal. unfold Rdiv. ring.
Qed.

Lemma fold_sum_pos (f : nat -> R) (l : list nat) (acc : R) :
  (forall i, 0 < f i) -> 0 < acc ->
  0 < fold_left (fun a i => a + f i) l acc.
Proof.
  intros Hf. revert acc. induction l as [|i l IH]; intros acc Hacc;
    [exact Hacc|].
  cbn [fold_left]. apply IH. specialize (Hf i). lra.
Qed.

Lemma ssum_pos (n : nat) (f : nat -> R) :
  (forall i, 0 < f i) -> (0 < n)%nat -> 0 < ssum n f.
Proof.
  intros Hf Hn. unfold ssum. destruct n as [|n]; [lia|].
  cbn [seq fold_left s0 sadd RScalar]. apply fold_sum_pos; [exact Hf|].
  specialize (Hf 0%nat). lra.
Qed.

Lemma softmax_row_sums_to_one (V : nat) (g : nat -> R) :
  (0 < V)%nat -> ssum V (fun u => softmax_row V g u) = 1.
Proof.
  intros HV. unfold softmax_row. cbn [sdiv sexp RScalar].
  rewrite ssum_div. 
  assert (Hpos : 0 < ssum V (fun j => exp (g j)))
    by (apply ssum_pos; [intros i; apply exp_pos|exact HV]).
  field. lra.
Qed.

End Real.

(** ** Instances on concrete inputs *)

Lemma forward_aggregates_witness :
  aggregation (fun k => if 2 =? 1 then 0 else k) st2 x_two A_two
    2 1 (conv_out_len (conv (self st2)) 1) 1.
Proof.
  apply (@forward_aggregates R RScalar st2 x_two A_two 1 1 2 1 1 0 1 true
           (rt [2; 1; 1; 1] [1; 1]%R) (rt [2] [0; 0]%R)
           (rt [1; 1; 1; 1] [1%R]) (rt [1] [0%R])
           (rt [1; 1; 1; 1] [1%R]) (rt [1] [0%R]) 2 1 1);
    try reflexivity; simpl; lia.
Defined.

(** C1 as the specification states it, with [M[k, v, w]] read at the
    partition index [k], fails for a batch of one and two kernel
    partitions: the returned matrix has the single slice 0, so the entry
    [M[1, 0, 0]] the stated sum needs does not exist, while [forward]
    returns an output. *)
Lemma aggregation_unamended_fails :
  (exists Mt,
     outcome (learnable_matrix x_one A_two) st2 = Ok Mt /\
     shape Mt = [1; 1; 1] /\
     get Mt [1; 0; 0] = None) /\
  ~ aggregation (fun k => k) st2 x_one A_two
      1 1 (conv_out_len (conv (self st2)) 1) 1.
Proof.
  assert (HM : outcome (learnable_matrix x_one A_two) st2 =
               Ok (build [1; 1; 1]
                     (fun idx =>
                        learned (self st2) x_one 1 1 (ix idx 0) (ix idx 1)
                          (ix idx 2)))).
  { unfold outcome.
    rewrite (@learnable_matrix_run R RScalar st2 x_one A_two
               1 1 2 1 1 0 1 true
               (rt [2; 1; 1; 1] [1; 1]%R) (rt [2] [0; 0]%R)
               (rt [1; 1; 1; 1] [1%R]) (rt [1] [0%R])
               (rt [1; 1; 1; 1] [1%R]) (rt [1] [0%R]) 1 1 1)
      by (reflexivity || lia).
    reflexivity. }
  split.
  - eexists. split; [exact HM|]. split; reflexivity.
  - intros (cx & feat & Mt & Y & _ & HM' & _ & Hval).
    rewrite HM in HM'. injection HM' as HM'.
    destruct (Hval 0 0 0 0) as (y & _ & Hy); try lia.
    + unfold conv_out_len. simpl. lia.
    + unfold contraction in Hy.
      rewrite (@osum_none _ _ _ _ 1) in Hy; [discriminate|simpl; lia|].
      apply (@osum_none _ _ _ _ 0); [lia|].
      subst Mt.
      destruct (get feat [0; 1; 0; 0; 0]); [|reflexivity].
      destruct (get A_two [1; 0; 0]); reflexivity.
Qed.

Lemma forward_shape_witness :
  exists Y,
    outcome (forward x_2365 A_255) st342 = Ok (Y, A_255) /\
    shape Y = [2; 4; 6; 5] /\
    wf Y.
Proof.
  apply (@forward_shape R RScalar st342 x_2365 A_255 3 4 2 1 1 0 1 true
           (fill [8; 3; 1; 1] 1%R) (fill [8] 0%R)
           (fill [4; 3; 1; 1] 1%R) (fill [4] 0%R)
           (fill [4; 3; 1; 1] 1%R) (fill [4] 0%R) 2 6 5);
    try reflexivity; simpl; lia.
Defined.

Lemma row_softmax_is_discarded_witness :
  learnable_matrix x_two A_two st2 =
  bind (result_matrix x_two A_two) (fun r => liftR (softmax r 2)) st2 /\
  exists Mt r,
    outcome (learnable_matrix x_two A_two) st2 = Ok Mt /\
    outcome (result_matrix x_two A_two) st2 = Ok r /\
    softmax r 2 = Ok Mt /\
    shape Mt = shape r.
Proof.
  destruct (@row_softmax_is_discarded R RScalar st2 x_two A_two)
    as [Heq Hret].
  split; [exact Heq|].
  assert (HM : outcome (learnable_matrix x_two A_two) st2 =
               Ok (build [2; 1; 1]
                     (fun idx =>
                        learned (self st2) x_two 1 1 0 (ix idx 1)
                          (ix idx 2)))).
  { unfold outcome.
    rewrite (@learnable_matrix_run R RScalar st2 x_two A_two
               1 1 2 1 1 0 1 true
               (rt [2; 1; 1; 1] [1; 1]%R) (rt [2] [0; 0]%R)
               (rt [1; 1; 1; 1] [1%R]) (rt [1] [0%R])
               (rt [1; 1; 1; 1] [1%R]) (rt [1] [0%R]) 2 1 1)
      by (reflexivity || lia).
    reflexivity. }
  destruct (Hret _ HM) as (r & Hr & Hs & Hsh & _).
  exists (build [2; 1; 1]
            (fun idx => learned (self st2) x_two 1 1 0 (ix idx 1) (ix idx 2))),
    r.
  auto.
Defined.

Lemma result_matrix_broadcasts_sample0_witness :
  exists cm r,
    outcome (concat_matrix x_two) st2 = Ok cm /\
    outcome (result_matrix x_two A_two) st2 = Ok r /\
    shape cm = [2; 1; 1] /\
    shape r = [2; 1; 1] /\
    (forall k v u, k < 2 -> v < 1 -> u < 1 ->
       get cm [0; v; u] = Some (affinity (self st2) x_two 1 0 v u) /\
       get r [k; v; u] = Some (affinity (self st2) x_two 1 0 v u)) /\
    (forall x', shape x' = shape x_two -> index0 x' 0 = index0 x_two 0 ->
       outcome (result_matrix x' A_two) st2 = Ok r).
Proof.
  apply (@result_matrix_broadcasts_sample0 R RScalar st2 x_two A_two
           1 1 2 1 1 0 1 true
           (rt [2; 1; 1; 1] [1; 1]%R) (rt [2] [0; 0]%R)
           (rt [1; 1; 1; 1] [1%R]) (rt [1] [0%R])
           (rt [1; 1; 1; 1] [1%R]) (rt [1] [0%R]) 2 1 1);
    try reflexivity; lia.
Defined.

Lemma forward_rejects_kernel_mismatch_witness :
  outcome (forward x_one A_three) st2 = Raise AssertionError /\
  final (forward x_one A_three) st2 = st2.
Proof.
  apply (@forward_rejects_kernel_mismatch R RScalar st2 x_one A_three
           3 [1; 1]); [reflexivity|simpl; lia].
Defined.


Lemma learnable_matrix_reads_shape_only_witness :
  learnable_matrix x_two A_two st2 = learnable_matrix x_two A_two' st2.
Proof.
  apply (@learnable_matrix_reads_shape_only R RScalar st2 x_two A_two A_two').
  reflexivity.
Defined.

Lemma single_sample_matrix_is_broadcast_witness :
  exists Mt AM,
    outcome (learnable_matrix x_one A_two) st2 = Ok Mt /\
    shape Mt = [1; 1; 1] /\
    shape Mt <> [2; 1; 1] /\
    tadd A_two Mt = Ok AM /\
    shape AM = [2; 1; 1] /\
    (forall k v u, k < 2 -> v < 1 -> u < 1 ->
       exists a m,
         get A_two [k; v; u] = Some a /\
         get Mt [0; v; u] = Some m /\
         get AM [k; v; u] = Some (sadd a m)) /\
    aggregation (fun _ => 0) st2 x_one A_two
      1 1 (conv_out_len (conv (self st2)) 1) 1.
Proof.
  apply (@single_sample_matrix_is_broadcast R RScalar st2 x_one A_two
           1 1 2 1 1 0 1 true
           (rt [2; 1; 1; 1] [1; 1]%R) (rt [2] [0; 0]%R)
           (rt [1; 1; 1; 1] [1%R]) (rt [1] [0%R])
           (rt [1; 1; 1; 1] [1%R]) (rt [1] [0%R]) 1 1);
    try reflexivity; simpl; lia.
Defined.

(** * Further properties of the unit *)

(** ** Failures, broadcasting and composition, for any scalar arithmetic *)

Section More.

Context {F : Type} {SF : Scalar F}.

#[local] Arguments tabulate : simpl never.
#[local] Arguments ssum : simpl never.
#[local] Arguments getd : simpl never.
#[local] Arguments conv_value : simpl never.
#[local] Arguments Nat.div : simpl never.
#[local] Arguments Nat.modulo : simpl never.
#[local] Arguments Nat.mul : simpl never.
#[local] Arguments Nat.sub : simpl never.

Lemma bind_liftR_raise {A B : Type} (e : Exn) (k : A -> M B) (s : St F) :
  bind (liftR (Raise e)) k s = (s, Raise e).
Proof. reflexivity. Qed.

Lemma bind_attr {A B : Type} (f : Module F -> A) (k : A -> M B) (s : St F) :
  bind (attr f) k s = k (f (self s)) s.
Proof. reflexivity. Qed.

Lemma bind_assert_true {B : Type} (k : unit -> M B) (s : St F) :
  bind (assert true) k s = k tt s.
Proof. reflexivity. Qed.

Lemma bind_call_ok {B : Type} (l : Layer) (x y : Tensor F)
    (k : Tensor F -> M B) (s : St F) :
  conv2d (layer (self s) l) x = Ok y ->
  bind (call l x) k s = k y (mkSt (self s) (calls s ++ [l])).
Proof. intros H. unfold bind, call. rewrite H. reflexivity. Qed.

Lemma bind_call_raise {B : Type} (l : Layer) (x : Tensor F) (e : Exn)
    (k : Tensor F -> M B) (s : St F) :
  conv2d (layer (self s) l) x = Raise e ->
  bind (call l x) k s = (mkSt (self s) (calls s ++ [l]), Raise e).
Proof. intros H. unfold bind, call. rewrite H. reflexivity. Qed.

Lemma bind_assoc {A B C : Type} (c : M A) (f : A -> M B) (g : B -> M C)
    (s : St F) :
  bind (bind c f) g s = bind c (fun a => bind (f a) g) s.
Proof. unfold bind. destruct (c s) as [s' [a|e]]; reflexivity. Qed.

Lemma unpack4_rank (t : Tensor F) :
  length (shape t) <> 4 -> unpack4 t = Raise ValueError.
Proof.
  unfold unpack4. destruct (shape t) as [|a [|b [|c [|d [|e l]]]]];
    simpl; intros H; try reflexivity. lia.
Qed.

(** The first statements of [forward], up to the call of
    [learnable_matrix], when the leading dimension of [A] is the kernel
    size. *)
Lemma forward_enters (st : St F) (x A : Tensor F) (rest : list nat) :
  shape A = kernel_size (self st) :: rest ->
  forward x A st =
  bind (learnable_matrix x A)
    (fun Mx =>
       bind (call L_conv x) (fun x1 =>
       bind (liftR (unpack4 x1)) (fun '(n, kc, t, v) =>
       bind (attr kernel_size) (fun ks' =>
       bind (liftR (floordiv kc ks')) (fun q =>
       bind (liftR (view x1 [n; ks'; q; t; v])) (fun x2 =>
       bind (liftR (tadd A Mx)) (fun AM =>
       bind (liftR (einsum x2 AM)) (fun x3 => ret (x3, A)))))))))
    st.
Proof.
  intros HA. unfold forward.
  erewrite bind_liftR_ok by (unfold size; rewrite HA; reflexivity).
  rewrite bind_attr, Nat.eqb_refl, bind_assert_true. reflexivity.
Qed.

(** X1: when the leading dimension of [A] is the kernel size and [x] is
    not a rank-4 tensor, [forward] raises [ValueError] (the unpacking of
    [x.size()] at the head of [learnable_matrix]) and no convolution has
    been executed. *)
Theorem forward_rejects_rank (st : St F) (x A : Tensor F) (rest : list nat) :
  shape A = kernel_size (self st) :: rest ->
  length (shape x) <> 4 ->
  outcome (forward x A) st = Raise ValueError /\
  final (forward x A) st = st.
Proof.
  intros HA Hx.
  assert (H : forward x A st = (st, Raise ValueError)).
  { rewrite (@forward_enters st x A rest HA). unfold learnable_matrix, result_matrix.
    rewrite !bind_assoc, unpack4_rank by exact Hx. reflexivity. }
  unfold outcome, final. rewrite H. split; reflexivity.
Qed.

(** X2: when [x] has a channel count other than the configured input
    channels, [forward] raises [RuntimeError]; the failing convolution is
    projection A, the only one executed. *)
Theorem forward_rejects_channels (st : St F) (x A : Tensor F)
    (rest : list nat) (N C T V : nat) :
  shape A = kernel_size (self st) :: rest ->
  shape x = [N; C; T; V] ->
  C <> c_in (conv_a (self st)) ->
  outcome (forward x A) st = Raise RuntimeError /\
  final (forward x A) st = mkSt (self st) (calls st ++ [L_conv_a]).
Proof.
  intros HA Hx HC.
  assert (H : forward x A st =
              (mkSt (self st) (calls st ++ [L_conv_a]), Raise RuntimeError)).
  { rewrite (@forward_enters st x A rest HA). unfold learnable_matrix, result_matrix.
    rewrite !bind_assoc.
    erewrite bind_liftR_ok by (unfold unpack4; rewrite Hx; reflexivity).
    cbv beta iota. unfold concat_matrix. rewrite !bind_assoc.
    erewrite bind_liftR_ok by (unfold unpack4; rewrite Hx; reflexivity).
    cbv beta iota. rewrite !bind_assoc.
    apply bind_call_raise. unfold conv2d. rewrite Hx. cbn [layer].
    apply Nat.eqb_neq in HC. rewrite HC. reflexivity. }
  unfold outcome, final. rewrite H. split; reflexivity.
Qed.

Lemma conv2d_raises (cv : Conv2d F) (x : Tensor F) (e : Exn) :
  conv2d cv x = Raise e -> e = RuntimeError.
Proof.
  unfold conv2d.
  destruct (shape x) as [|n [|c [|t [|v [|u l]]]]]; try congruence.
  destruct (_ && _); congruence.
Qed.

Lemma view_raises (t : Tensor F) (sh : list nat) (e : Exn) :
  view t sh = Raise e -> e = RuntimeError.
Proof. unfold view. destruct (_ =? _); congruence. Qed.

Lemma conv2d_too_short (cv : Conv2d F) (x : Tensor F) (n c t v : nat) :
  shape x = [n; c; t; v] ->
  t + 2 * c_padding cv < c_dilation cv * (c_kernel cv - 1) + 1 ->
  conv2d cv x = Raise RuntimeError.
Proof.
  intros Hx H. unfold conv2d. rewrite Hx.
  apply Nat.leb_gt in H. rewrite H, andb_false_r. reflexivity.
Qed.

(** X3: when the dilated temporal kernel is longer than the padded
    sequence, [forward] raises [RuntimeError] at the temporal convolution,
    after both projections have been executed for the learned matrix. *)
Theorem forward_rejects_short_sequence (st : St F) (x A : Tensor F)
    (Cin Cout K tk ts tp td : nat) (bs : bool) (w b wa ba wb bb : Tensor F)
    (N T V : nat) :
  self st = init Cin Cout K tk ts tp td bs w b wa ba wb bb ->
  0 < Cin /\ 0 < Cout /\ 0 < V ->
  shape x = [N; Cin; T; V] -> shape A = [K; V; V] ->
  0 < N -> 0 < T ->
  T + 2 * tp < td * (tk - 1) + 1 ->
  outcome (forward x A) st = Raise RuntimeError /\
  final (forward x A) st =
  mkSt (self st) (calls st ++ [L_conv_a; L_conv_b; L_conv]).
Proof.
  intros Hm Hpos Hx HA HN HT Hshort.
  assert (H : forward x A st =
              (mkSt (self st) (calls st ++ [L_conv_a; L_conv_b; L_conv]),
               Raise RuntimeError)).
  { rewrite (@forward_enters st x A [V; V])
      by (rewrite HA, Hm; reflexivity).
    erewrite bind_ok by (eapply learnable_matrix_run; eassumption).
    erewrite bind_call_raise.
    - cbn [self calls]. rewrite <- app_assoc. reflexivity.
    - cbn [self layer]. apply conv2d_too_short with (1 := Hx).
      rewrite Hm. exact Hshort. }
  unfold outcome, final. rewrite H. split; reflexivity.
Qed.

(** X6: on a well-shaped input [forward] succeeds and has executed
    projection A, projection B and the temporal convolution once each, in
    this order; [learnable_matrix] alone succeeds and has executed the two
    projections and never the temporal convolution. *)
Theorem forward_runs_each_layer_once (st : St F) (x A : Tensor F)
    (Cin Cout K tk ts tp td : nat) (bs : bool) (w b wa ba wb bb : Tensor F)
    (N T V : nat) :
  self st = init Cin Cout K tk ts tp td bs w b wa ba wb bb ->
  0 < Cin /\ 0 < Cout /\ 0 < V ->
  shape x = [N; Cin; T; V] -> shape A = [K; V; V] ->
  0 < N -> 0 < T -> 0 < K -> 0 < tk -> 0 < ts -> 0 < td ->
  td * (tk - 1) + 1 <= T + 2 * tp ->
  (exists Y, outcome (forward x A) st = Ok (Y, A)) /\
  calls (final (forward x A) st) =
    calls st ++ [L_conv_a; L_conv_b; L_conv] /\
  (exists Mt, outcome (learnable_matrix x A) st = Ok Mt) /\
  calls (final (learnable_matrix x A) st) =
    calls st ++ [L_conv_a; L_conv_b].
Proof.
  intros Hm Hpos Hx HA HN HT HK Htk Hts Htd Hfit. unfold final, outcome.
  erewrite forward_run with (N := N) (T := T) (tk := tk) (ts := ts)
    (td := td) by eassumption.
  erewrite learnable_matrix_run with (N := N) (T := T) by eassumption.
  split; [eexists; reflexivity|]. split; [reflexivity|].
  split; [eexists; reflexivity|reflexivity].
Qed.

(** For a batch of one, [learnable_matrix] does not look at [A] at all. *)
Lemma learnable_matrix_run_single (st : St F) (x A : Tensor F)
    (Cin Cout K tk ts tp td : nat) (bs : bool) (w b wa ba wb bb : Tensor F)
    (T V : nat) :
  self st = init Cin Cout K tk ts tp td bs w b wa ba wb bb ->
  0 < Cin /\ 0 < Cout /\ 0 < V ->
  shape x = [1; Cin; T; V] -> 0 < T ->
  learnable_matrix x A st =
  (mkSt (self st) (calls st ++ [L_conv_a; L_conv_b]),
   Ok (build [1; V; V]
         (fun idx => learned (self st) x T V (ix idx 0) (ix idx 1) (ix idx 2)))).
Proof.
  intros Hm Hpos Hx HT. unfold learnable_matrix, result_matrix.
  rewrite !bind_assoc.
  erewrite bind_liftR_ok by (unfold unpack4; rewrite Hx; reflexivity).
  cbv beta iota. rewrite !bind_assoc.
  erewrite bind_ok by (eapply concat_matrix_run; eassumption).
  cbn [Nat.leb]. unfold bind at 1, ret.
  erewrite bind_liftR_ok by (unfold softmax; reflexivity).
  rewrite softmax_last_build. reflexivity.
Qed.

Lemma not_expandable_slice (V W : nat) :
  V <> W -> V <> 1 -> expandable (strip1 [V; V]) [W; W] = false.
Proof.
  intros HVW HV.
  assert (Hs : strip1 [V; V] = [V; V]).
  { destruct V as [|[|V]]; try reflexivity. lia. }
  rewrite Hs. unfold expandable. cbn [rev app expandable_rev].
  apply Nat.eqb_neq in HVW, HV. rewrite HVW, HV. reflexivity.
Qed.

Lemma not_broadcast_slices (K V W : nat) :
  V <> W -> V <> 1 -> W <> 1 ->
  broadcast_shapes [K; W; W] [1; V; V] = None.
Proof.
  intros HVW HV HW. unfold broadcast_shapes. cbn [rev app bshape_rev].
  assert (H1 : (W =? V) = false) by (apply Nat.eqb_neq; lia).
  apply Nat.eqb_neq in HV, HW. rewrite H1, HV, HW.
  destruct (K =? 1); reflexivity.
Qed.

(** The construction of [result] for a batch of at least two, when the
    nodes of [x] and of [A] differ: the projections run, the first slice
    assignment fails. *)
Lemma result_matrix_mismatch (st : St F) (x A : Tensor F)
    (Cin Cout K tk ts tp td : nat) (bs : bool) (w b wa ba wb bb : Tensor F)
    (N T V W : nat) :
  self st = init Cin Cout K tk ts tp td bs w b wa ba wb bb ->
  0 < Cin /\ 0 < Cout /\ 0 < V ->
  shape x = [N; Cin; T; V] -> shape A = [K; W; W] ->
  2 <= N -> 0 < T -> 0 < K -> V <> W -> V <> 1 ->
  result_matrix x A st =
  (mkSt (self st) (calls st ++ [L_conv_a; L_conv_b]), Raise RuntimeError).
Proof.
  intros Hm Hpos Hx HA HN HT HK HVW HV. unfold result_matrix.
  erewrite bind_liftR_ok by (unfold unpack4; rewrite Hx; reflexivity).
  cbv beta iota.
  erewrite bind_ok by (eapply concat_matrix_run; eassumption).
  replace (2 <=? N) with true by (symmetry; apply Nat.leb_le; exact HN).
  erewrite bind_liftR_ok by (unfold size; rewrite HA; reflexivity).
  destruct K as [|K]; [lia|].
  cbn [seq for_each]. rewrite index0_build by lia. cbn [rbind].
  unfold setitem0, ones. cbn [shape build]. rewrite HA.
  cbn [Nat.ltb Nat.leb]. rewrite not_expandable_slice by assumption.
  reflexivity.
Qed.

(** X4: when [x] has [V] nodes and [A] has [W] nodes, [V] and [W]
    different and neither equal to 1, [forward] raises [RuntimeError].
    For a batch of at least two the projections succeed and the
    construction of [result] fails (at its first slice assignment), so the
    temporal convolution is never executed; for a batch of one the learned
    matrix and the temporal convolution succeed and the sum [A + M]
    fails. *)
Theorem forward_rejects_node_mismatch (st : St F) (x A : Tensor F)
    (Cin Cout K tk ts tp td : nat) (bs : bool) (w b wa ba wb bb : Tensor F)
    (N T V W : nat) :
  self st = init Cin Cout K tk ts tp td bs w b wa ba wb bb ->
  0 < Cin /\ 0 < Cout /\ 0 < V ->
  shape x = [N; Cin; T; V] -> shape A = [K; W; W] ->
  0 < N -> 0 < T -> 0 < K -> 0 < tk -> 0 < ts -> 0 < td ->
  td * (tk - 1) + 1 <= T + 2 * tp ->
  V <> W -> V <> 1 -> W <> 1 ->
  outcome (forward x A) st = Raise RuntimeError /\
  (2 <= N ->
   (exists cm, outcome (concat_matrix x) st = Ok cm) /\
   outcome (result_matrix x A) st = Raise RuntimeError /\
   final (forward x A) st =
   mkSt (self st) (calls st ++ [L_conv_a; L_conv_b])) /\
  (N = 1 ->
   exists Mt cx,
     outcome (learnable_matrix x A) st = Ok Mt /\
     conv2d (conv (self st)) x = Ok cx /\
     tadd A Mt = Raise RuntimeError /\
     final (forward x A) st =
     mkSt (self st) (calls st ++ [L_conv_a; L_conv_b; L_conv])).
Proof.
  intros Hm Hpos Hx HA HN HT HK Htk Hts Htd Hfit HVW HV HW.
  assert (Hks : kernel_size (self st) = K) by (rewrite Hm; reflexivity).
  assert (Hbatch : 2 <= N ->
            forward x A st =
            (mkSt (self st) (calls st ++ [L_conv_a; L_conv_b]),
             Raise RuntimeError)).
  { intros Hge.
    rewrite (@forward_enters st x A [W; W]) by (rewrite HA, Hm; reflexivity).
    unfold learnable_matrix. rewrite !bind_assoc.
    erewrite bind_raise by (eapply result_matrix_mismatch; eassumption).
    reflexivity. }
  assert (Hconv : conv2d (conv (self st)) x =
            Ok (build [N; Cout * K; conv_out_len (conv (self st)) T; V]
                  (fun idx =>
                     conv_value (conv (self st)) x (ix idx 0) (ix idx 1)
                       (ix idx 2) (ix idx 3)))).
  { rewrite (@conv2d_ok _ _ _ x N Cin T V)
      by (try exact Hx; rewrite ?Hm; simpl;
          first [assumption | reflexivity | nia]).
    rewrite Hm. reflexivity. }
  assert (Hone : N = 1 ->
            tadd A (build [1; V; V]
                      (fun idx =>
                         learned (self st) x T V (ix idx 0) (ix idx 1)
                           (ix idx 2))) = Raise RuntimeError /\
            forward x A st =
            (mkSt (self st) (calls st ++ [L_conv_a; L_conv_b; L_conv]),
             Raise RuntimeError)).
  { intros ->.
    assert (Hsum : tadd A (build [1; V; V]
                      (fun idx =>
                         learned (self st) x T V (ix idx 0) (ix idx 1)
                           (ix idx 2))) = Raise RuntimeError).
    { unfold tadd. rewrite HA. cbn [shape build].
      rewrite not_broadcast_slices by assumption. reflexivity. }
    split; [exact Hsum|].
    rewrite (@forward_enters st x A [W; W]) by (rewrite HA, Hm; reflexivity).
    erewrite bind_ok by (eapply learnable_matrix_run_single; eassumption).
    erewrite bind_call_ok by (cbn [self layer]; exact Hconv).
    erewrite bind_liftR_ok by reflexivity. cbv beta iota.
    rewrite bind_attr. cbn [self]. rewrite Hks.
    erewrite bind_liftR_ok.
    2:{ unfold floordiv. destruct (Nat.eqb_spec K 0); [lia|].
        rewrite Nat.div_mul by lia. reflexivity. }
    rewrite view_ok by (cbn [shape build sprod]; ring).
    unfold bind at 1, liftR at 1.
    unfold bind at 1, liftR at 1. rewrite Hsum.
    cbn [self calls]. rewrite <- app_assoc. reflexivity. }
  split; [|split].
  - unfold outcome. destruct (Nat.leb_spec 2 N) as [Hge|Hlt].
    + rewrite (Hbatch Hge). reflexivity.
    + destruct (Hone ltac:(lia)) as [_ H1]. rewrite H1. reflexivity.
  - intros Hge. split; [|split].
    + eexists. unfold outcome.
      erewrite concat_matrix_run by eassumption. reflexivity.
    + unfold outcome.
      erewrite result_matrix_mismatch by eassumption. reflexivity.
    + unfold final. rewrite (Hbatch Hge). reflexivity.
  - intros H1. destruct (Hone H1) as [Hsum Hf]. subst N.
    do 2 eexists. split; [|split; [|split]].
    + unfold outcome.
      erewrite learnable_matrix_run_single by eassumption. reflexivity.
    + exact Hconv.
    + exact Hsum.
    + unfold final. rewrite Hf. reflexivity.
Qed.

Lemma for_each_expands_scalar (K W : nat) (g : list nat -> F) (N : nat) :
  0 < N ->
  forall l r, shape r = [K; W; W] -> (forall i, In i l -> i < K) ->
    exists r',
      for_each l
        (fun i r0 =>
           rbind (index0 (build [N; 1; 1] g) 0)
                 (fun src => setitem0 r0 i src)) r = Ok r' /\
      shape r' = [K; W; W].
Proof.
  intros HN.
  set (body := fun (i : nat) (r0 : Tensor F) =>
         rbind (index0 (build [N; 1; 1] g) 0)
               (fun src => setitem0 r0 i src)).
  induction l as [|i l IH]; intros r Hr Hl.
  - exists r. split; [reflexivity|exact Hr].
  - cbn [for_each]. unfold body at 1.
    rewrite index0_build by exact HN. cbn [rbind].
    unfold setitem0. rewrite Hr.
    replace (i <? K) with true
      by (symmetry; apply Nat.ltb_lt; apply Hl; left; reflexivity).
    cbn [shape build strip1 expandable expandable_rev rev app rbind].
    apply IH; [reflexivity|].
    intros j Hj. apply Hl. right. exact Hj.
Qed.

Lemma broadcast_to_slices (K W : nat) :
  broadcast_shapes [K; W; W] [1; 1; 1] = Some [K; W; W].
Proof.
  unfold broadcast_shapes. cbn [rev app bshape_rev].
  destruct (W =? 1), (K =? 1); reflexivity.
Qed.

Lemma einsum_single_node (x2 b : Tensor F) (n k c t w : nat) :
  shape x2 = [n; k; c; t; 1] -> shape b = [k; w; w] ->
  exists y, einsum x2 b = Ok y /\ shape y = [n; c; t; w].
Proof.
  intros Hx Hb. unfold einsum. rewrite Hx, Hb. unfold bdim.
  rewrite Nat.eqb_refl.
  destruct (1 =? w); eexists; split; reflexivity.
Qed.

(** X5: a single-node input is accepted with an adjacency over any number
    [W] of nodes: the learned matrix and the node axis of the features are
    broadcast, and the output has [W] nodes. *)
Theorem forward_broadcasts_single_node (st : St F) (x A : Tensor F)
    (Cin Cout K tk ts tp td : nat) (bs : bool) (w b wa ba wb bb : Tensor F)
    (N T W : nat) :
  self st = init Cin Cout K tk ts tp td bs w b wa ba wb bb ->
  0 < Cin /\ 0 < Cout ->
  shape x = [N; Cin; T; 1] -> shape A = [K; W; W] ->
  0 < N -> 0 < T -> 0 < K -> 0 < tk -> 0 < ts -> 0 < td ->
  td * (tk - 1) + 1 <= T + 2 * tp ->
  exists Y,
    outcome (forward x A) st = Ok (Y, A) /\
    shape Y = [N; Cout; (T + 2 * tp - td * (tk - 1) - 1) / ts + 1; W].
Proof.
  intros Hm Hpos Hx HA HN HT HK Htk Hts Htd Hfit.
  assert (Hpos1 : 0 < Cin /\ 0 < Cout /\ 0 < 1) by lia.
  assert (Hks : kernel_size (self st) = K) by (rewrite Hm; reflexivity).
  assert (Hlen : conv_out_len (conv (self st)) T =
                 (T + 2 * tp - td * (tk - 1) - 1) / ts + 1)
    by (rewrite Hm; reflexivity).
  (* The learned matrix: [A]'s shape for a batch, one entry otherwise. *)
  assert (HM : exists Mt s',
             learnable_matrix x A st = (s', Ok Mt) /\ self s' = self st /\
             (shape Mt = [K; W; W] \/ shape Mt = [1; 1; 1])).
  { destruct (Nat.leb_spec 2 N) as [Hge|Hlt].
    - unfold learnable_matrix, result_matrix. rewrite !bind_assoc.
      erewrite bind_liftR_ok by (unfold unpack4; rewrite Hx; reflexivity).
      cbv beta iota. rewrite !bind_assoc.
      erewrite bind_ok by (eapply concat_matrix_run; eassumption).
      replace (2 <=? N) with true by (symmetry; apply Nat.leb_le; exact Hge).
      rewrite !bind_assoc.
      erewrite bind_liftR_ok by (unfold size; rewrite HA; reflexivity).
      destruct (@for_each_expands_scalar K W
                  (fun idx =>
                     affinity (self st) x T (ix idx 0) (ix idx 1) (ix idx 2))
                  N HN (seq 0 K) (ones (shape A)))
        as (r & Hr & Hsh).
      + rewrite HA. reflexivity.
      + intros i Hi. apply in_seq in Hi. lia.
      + rewrite HA in *. unfold bind at 1, liftR at 1. rewrite Hr.
        unfold bind, liftR, softmax. rewrite Hsh. cbn [length Nat.ltb Nat.leb].
        do 2 eexists. split; [reflexivity|]. split; [reflexivity|].
        left. reflexivity.
    - assert (N = 1) by lia. subst N.
      erewrite learnable_matrix_run_single by eassumption.
      do 2 eexists. split; [reflexivity|]. split; [reflexivity|].
      right. reflexivity. }
  destruct HM as (Mt & s' & HM & Hs' & HshM).
  assert (Hadd : exists AM, tadd A Mt = Ok AM /\ shape AM = [K; W; W]).
  { unfold tadd. rewrite HA. destruct HshM as [-> | ->].
    - rewrite broadcast_slices by (left; reflexivity).
      eexists. split; reflexivity.
    - rewrite broadcast_to_slices. eexists. split; reflexivity. }
  destruct Hadd as (AM & Hadd & HshAM).
  destruct (@einsum_single_node
              (mkTensor [N; K; Cout; conv_out_len (conv (self st)) T; 1]
                 (data (build [N; Cout * K; conv_out_len (conv (self st)) T; 1]
                          (fun idx =>
                             conv_value (conv (self st)) x (ix idx 0)
                               (ix idx 1) (ix idx 2) (ix idx 3)))))
              AM N K Cout (conv_out_len (conv (self st)) T) W)
    as (Y & HY & HshY); [reflexivity|exact HshAM|].
  exists Y. split; [|rewrite HshY, Hlen; reflexivity].
  unfold outcome.
  rewrite (@forward_enters st x A [W; W]) by (rewrite HA, Hks; reflexivity).
  erewrite bind_ok by exact HM.
  erewrite bind_call_ok.
  2:{ rewrite Hs'. cbn [layer].
      rewrite (@conv2d_ok _ _ _ x N Cin T 1)
        by (try exact Hx; rewrite ?Hm; simpl;
        first [assumption | reflexivity | nia]).
      replace (c_out (conv (self st))) with (Cout * K)
        by (rewrite Hm; reflexivity).
      reflexivity. }
  erewrite bind_liftR_ok by reflexivity. cbv beta iota.
  rewrite bind_attr. cbn [self]. rewrite Hs', Hks.
  erewrite bind_liftR_ok.
  2:{ unfold floordiv. destruct (Nat.eqb_spec K 0); [lia|].
      rewrite Nat.div_mul by lia. reflexivity. }
  rewrite view_ok by (cbn [shape build sprod]; ring).
  unfold bind at 1, liftR at 1.
  erewrite bind_liftR_ok by exact Hadd.
  erewrite bind_liftR_ok by exact HY.
  reflexivity.
Qed.

(** X7: units stack: the pair a first unit returns is a valid input of a
    second unit whose input channels are the first's output channels; the
    adjacency is threaded through and the temporal lengths compose. *)
Theorem forward_stacks (st1 st2 : St F) (x A : Tensor F)
    (Cin C1 C2 K : nat) (tk1 ts1 tp1 td1 tk2 ts2 tp2 td2 : nat)
    (bs1 bs2 : bool) (w1 c1 wa1 ba1 wb1 bb1 w2 c2 wa2 ba2 wb2 bb2 : Tensor F)
    (N T V : nat) :
  self st1 = init Cin C1 K tk1 ts1 tp1 td1 bs1 w1 c1 wa1 ba1 wb1 bb1 ->
  self st2 = init C1 C2 K tk2 ts2 tp2 td2 bs2 w2 c2 wa2 ba2 wb2 bb2 ->
  0 < Cin /\ 0 < C1 /\ 0 < C2 /\ 0 < V ->
  shape x = [N; Cin; T; V] -> shape A = [K; V; V] ->
  0 < N -> 0 < T -> 0 < K ->
  0 < tk1 -> 0 < ts1 -> 0 < td1 -> td1 * (tk1 - 1) + 1 <= T + 2 * tp1 ->
  0 < tk2 -> 0 < ts2 -> 0 < td2 ->
  td2 * (tk2 - 1) + 1 <=
    (T + 2 * tp1 - td1 * (tk1 - 1) - 1) / ts1 + 1 + 2 * tp2 ->
  exists Y Z,
    outcome (forward x A) st1 = Ok (Y, A) /\
    outcome (forward Y A) st2 = Ok (Z, A) /\
    shape Z =
      [N; C2;
       ((T + 2 * tp1 - td1 * (tk1 - 1) - 1) / ts1 + 1
        + 2 * tp2 - td2 * (tk2 - 1) - 1) / ts2 + 1;
       V].
Proof.
  intros Hm1 Hm2 Hpos Hx HA HN HT HK Htk1 Hts1 Htd1 Hfit1 Htk2 Hts2 Htd2
    Hfit2.
  assert (Hp1 : 0 < Cin /\ 0 < C1 /\ 0 < V) by lia.
  assert (Hp2 : 0 < C1 /\ 0 < C2 /\ 0 < V) by lia.
  pose proof (@forward_run _ _ st1 x A Cin C1 K tk1 ts1 tp1 td1 bs1
                w1 c1 wa1 ba1 wb1 bb1 N T V
                Hm1 Hp1 Hx HA HN HT HK Htk1 Hts1 Htd1 Hfit1) as H1.
  assert (Hlen : conv_out_len (conv (self st1)) T =
                 (T + 2 * tp1 - td1 * (tk1 - 1) - 1) / ts1 + 1)
    by (rewrite Hm1; reflexivity).
  rewrite Hlen in H1.
  set (T1 := (T + 2 * tp1 - td1 * (tk1 - 1) - 1) / ts1 + 1) in *.
  set (Y := build [N; C1; T1; V]
              (fun idx =>
                 aggregated (self st1) x A T V (ix idx 0) (ix idx 1)
                   (ix idx 2) (ix idx 3))) in *.
  assert (HT1 : 0 < T1) by (unfold T1; lia).
  pose proof (@forward_run _ _ st2 Y A C1 C2 K tk2 ts2 tp2 td2 bs2
                w2 c2 wa2 ba2 wb2 bb2 N T1 V
                Hm2 Hp2 eq_refl HA HN HT1 HK Htk2 Hts2 Htd2 Hfit2) as H2.
  exists Y. eexists. split; [|split].
  - unfold outcome. rewrite H1. reflexivity.
  - unfold outcome. rewrite H2. reflexivity.
  - cbn [shape build]. rewrite Hm2. reflexivity.
Qed.

(** X8: with stride 1 and a total padding [2 * t_padding] equal to
    [t_dilation * (t_kernel_size - 1)] (the defaults among them), the
    output keeps the sequence length of the input. *)
Theorem forward_keeps_length (st : St F) (x A : Tensor F)
    (Cin Cout K tk tp td : nat) (bs : bool) (w b wa ba wb bb : Tensor F)
    (N T V : nat) :
  self st = init Cin Cout K tk 1 tp td bs w b wa ba wb bb ->
  0 < Cin /\ 0 < Cout /\ 0 < V ->
  shape x = [N; Cin; T; V] -> shape A = [K; V; V] ->
  0 < N -> 0 < T -> 0 < K -> 0 < tk -> 0 < td ->
  2 * tp = td * (tk - 1) ->
  exists Y,
    outcome (forward x A) st = Ok (Y, A) /\
    shape Y = [N; Cout; T; V].
Proof.
  intros Hm Hpos Hx HA HN HT HK Htk Htd Hsame.
  eexists. split.
  - unfold outcome.
    erewrite forward_run with (T := T) (tk := tk) (ts := 1) (td := td)
      by (eassumption || lia).
    reflexivity.
  - cbn [shape build]. do 2 f_equal. f_equal.
    unfold conv_out_len. rewrite Hm.
    cbn [init conv c_padding c_dilation c_kernel c_stride].
    rewrite Nat.div_1_r, <- Hsame. lia.
Qed.

(** Two inputs with the same batch element [n] are read alike there. *)
Lemma sample_reads (x x' : Tensor F) (N C T V n i t v : nat) :
  shape x = [N; C; T; V] -> shape x' = [N; C; T; V] -> n < N ->
  index0 x' n = index0 x n -> i < C -> t < T -> v < V ->
  getd x' [n; i; t; v] = getd x [n; i; t; v].
Proof.
  intros Hx Hx' HN H Hi Ht Hv. unfold index0 in H. rewrite Hx, Hx' in H.
  apply Nat.ltb_lt in HN. rewrite HN in H.
  assert (H' : build [C; T; V] (fun idx => getd x' (n :: idx)) =
               build [C; T; V] (fun idx => getd x (n :: idx)))
    by congruence.
  apply (@build_inj_values F SF [C; T; V]
           (fun idx => getd x' (n :: idx)) (fun idx => getd x (n :: idx))
           [i; t; v] H').
  apply inrange3; assumption.
Qed.

Lemma conv_value_sample (cv : Conv2d F) (x x' : Tensor F)
    (N T V n o t v : nat) :
  shape x = [N; c_in cv; T; V] -> shape x' = [N; c_in cv; T; V] -> n < N ->
  index0 x' n = index0 x n -> v < V ->
  conv_value cv x' n o t v = conv_value cv x n o t v.
Proof.
  intros Hx Hx' HN H Hv. unfold conv_value.
  assert (Hacc :
    ssum (c_in cv) (fun i =>
      ssum (c_kernel cv) (fun j =>
        smul (getd (weight cv) [o; i; j; 0]) (padded cv x' n i t j v))) =
    ssum (c_in cv) (fun i =>
      ssum (c_kernel cv) (fun j =>
        smul (getd (weight cv) [o; i; j; 0]) (padded cv x n i t j v)))).
  { apply ssum_ext. intros i Hi. apply ssum_ext. intros j Hj. f_equal.
    unfold padded. rewrite Hx, Hx'.
    destruct (c_padding cv <=? t * c_stride cv + j * c_dilation cv);
      [|reflexivity].
    cbn [andb].
    destruct (Nat.ltb_spec
                (t * c_stride cv + j * c_dilation cv - c_padding cv) T);
      [|reflexivity].
    eapply sample_reads; eassumption. }
  rewrite Hacc. reflexivity.
Qed.

(** X9: the slice [n] of the output depends on [x] through the samples
    [n] and 0 only: two inputs that agree on these two samples give the
    same output slice [n]. *)
Theorem forward_sample_depends_on_itself_and_first (st : St F)
    (x x' A : Tensor F)
    (Cin Cout K tk ts tp td : nat) (bs : bool) (w b wa ba wb bb : Tensor F)
    (N T V n : nat) :
  self st = init Cin Cout K tk ts tp td bs w b wa ba wb bb ->
  0 < Cin /\ 0 < Cout /\ 0 < V ->
  shape x = [N; Cin; T; V] -> shape x' = [N; Cin; T; V] ->
  shape A = [K; V; V] ->
  0 < T -> 0 < K -> 0 < tk -> 0 < ts -> 0 < td ->
  td * (tk - 1) + 1 <= T + 2 * tp ->
  n < N ->
  index0 x' 0 = index0 x 0 ->
  index0 x' n = index0 x n ->
  exists Y Y' s,
    outcome (forward x A) st = Ok (Y, A) /\
    outcome (forward x' A) st = Ok (Y', A) /\
    index0 Y n = Ok s /\ index0 Y' n = Ok s.
Proof.
  intros Hm Hpos Hx Hx' HA HT HK Htk Hts Htd Hfit Hn H0 Hsame.
  assert (HN : 0 < N) by lia.
  pose proof (@forward_run _ _ st x A Cin Cout K tk ts tp td bs
                w b wa ba wb bb N T V
                Hm Hpos Hx HA HN HT HK Htk Hts Htd Hfit) as H1.
  pose proof (@forward_run _ _ st x' A Cin Cout K tk ts tp td bs
                w b wa ba wb bb N T V
                Hm Hpos Hx' HA HN HT HK Htk Hts Htd Hfit) as H2.
  do 3 eexists. split; [|split; [|split]].
  - unfold outcome. rewrite H1. reflexivity.
  - unfold outcome. rewrite H2. reflexivity.
  - apply index0_build. exact Hn.
  - rewrite index0_build by exact Hn. f_equal. apply build_ext.
    intros idx Hidx. apply inrange3_inv in Hidx.
    destruct Hidx as (c & t & u & -> & Hc & Ht & Hu). cbn [ix nth].
    unfold aggregated. apply ssum_ext. intros k Hk.
    apply ssum_ext. intros v Hv.
    assert (Hci : c_in (conv (self st)) = Cin) by (rewrite Hm; reflexivity).
    f_equal.
    + eapply conv_value_sample with (N := N) (T := T) (V := V);
        rewrite ?Hci; eassumption.
    + f_equal. unfold learned, softmax_row.
      rewrite (@affinity_sample0 _ _ st x x' Cin Cout K tk ts tp td bs
                 w b wa ba wb bb N T V v u Hm Hx Hx' HN H0 Hv Hu).
      f_equal. apply ssum_ext. intros j Hj.
      rewrite (@affinity_sample0 _ _ st x x' Cin Cout K tk ts tp td bs
                 w b wa ba wb bb N T V v j Hm Hx Hx' HN H0 Hv Hj).
      reflexivity.
Qed.

End More.

(** ** What the learned matrix reads of the instance *)

Section ProjectionFacts.

Context {F : Type} {SF : Scalar F}.

Lemma rp_ret {A : Type} (a : A) : reads_projections (F := F) (ret a).
Proof. intros s s' H. split; [reflexivity|exact H]. Qed.

Lemma rp_liftR {A : Type} (r : Res A) : reads_projections (F := F) (liftR r).
Proof. intros s s' H. split; [reflexivity|exact H]. Qed.

Lemma rp_out_channels : reads_projections (F := F) (attr out_channels).
Proof.
  intros s s' H. split; [|exact H]. unfold attr. cbn [snd].
  destruct H as (_ & _ & ->). reflexivity.
Qed.

Lemma rp_conv_a (x : Tensor F) : reads_projections (call L_conv_a x).
Proof.
  intros s s' H. split; [|exact H]. unfold call. cbn [snd layer].
  destruct H as (-> & _ & _). reflexivity.
Qed.

Lemma rp_conv_b (x : Tensor F) : reads_projections (call L_conv_b x).
Proof.
  intros s s' H. split; [|exact H]. unfold call. cbn [snd layer].
  destruct H as (_ & -> & _). reflexivity.
Qed.

Lemma rp_bind {A B : Type} (c : @M F A) (k : A -> @M F B) :
  reads_projections c -> (forall a, reads_projections (k a)) ->
  reads_projections (bind c k).
Proof.
  intros Hc Hk s s' H. destruct (Hc s s' H) as [Hout Hself]. unfold bind.
  destruct (c s) as [s1 [a|e]]; destruct (c s') as [s1' [a'|e']];
    cbn [fst snd] in *; try discriminate.
  - injection Hout as ->. apply Hk. exact Hself.
  - injection Hout as ->. split; [reflexivity|exact Hself].
Qed.

Create HintDb projections.

#[local] Hint Resolve rp_ret rp_liftR rp_out_channels rp_conv_a rp_conv_b
  : projections.

Ltac rp_step :=
  first
    [ match goal with a : (_ * _)%type |- _ => destruct a end
    | solve [auto with projections]
    | apply rp_bind; [|intros] ].

Lemma rp_concat_matrix (x : Tensor F) : reads_projections (concat_matrix x).
Proof. unfold concat_matrix. repeat rp_step. Qed.

#[local] Hint Resolve rp_concat_matrix : projections.

Lemma rp_result_matrix (x A : Tensor F) :
  reads_projections (result_matrix x A).
Proof.
  unfold result_matrix. repeat rp_step.
  match goal with |- context [2 <=? ?n] => destruct (2 <=? n) end;
    repeat rp_step.
Qed.

#[local] Hint Resolve rp_result_matrix : projections.

Lemma rp_learnable_matrix (x A : Tensor F) :
  reads_projections (learnable_matrix x A).
Proof. unfold learnable_matrix. repeat rp_step. Qed.

(** X13: the outcome of [learnable_matrix] depends on the instance through
    the two projections and the output channel count only: neither the
    temporal convolution nor the kernel size has any influence. *)
Theorem learnable_matrix_ignores_temporal_conv (st st' : St F)
    (x A : Tensor F) :
  conv_a (self st) = conv_a (self st') ->
  conv_b (self st) = conv_b (self st') ->
  out_channels (self st) = out_channels (self st') ->
  outcome (learnable_matrix x A) st = outcome (learnable_matrix x A) st'.
Proof.
  intros Ha Hb Ho. unfold outcome.
  apply (rp_learnable_matrix x A). repeat split; assumption.
Qed.

End ProjectionFacts.

(** ** Further properties in exact arithmetic *)

Section RealMore.

#[local] Arguments tabulate : simpl never.
#[local] Arguments ssum : simpl never.
#[local] Arguments getd : simpl never.
#[local] Arguments conv_value : simpl never.

Open Scope R_scope.

Lemma ssum_S (n : nat) (f : nat -> R) : ssum (S n) f = ssum n f + f n.
Proof.
  unfold ssum. rewrite seq_S, fold_left_app. reflexivity.
Qed.

Lemma ssum_0 (f : nat -> R) : ssum 0 f = 0.
Proof. reflexivity. Qed.

Lemma ssum_plus (n : nat) (f g : nat -> R) :
  ssum n (fun i => f i + g i) = ssum n f + ssum n g.
Proof.
  induction n as [|n IH]; [rewrite !ssum_0; ring|].
  rewrite !ssum_S, IH. ring.
Qed.

Lemma ssum_scal_r (n : nat) (f : nat -> R) (c : R) :
  ssum n (fun i => f i * c) = ssum n f * c.
Proof.
  induction n as [|n IH]; [rewrite !ssum_0; ring|].
  rewrite !ssum_S, IH. ring.
Qed.

Lemma ssum_swap (n m : nat) (f : nat -> nat -> R) :
  ssum n (fun i => ssum m (fun j => f i j)) =
  ssum m (fun j => ssum n (fun i => f i j)).
Proof.
  induction n as [|n IH].
  - rewrite ssum_0. induction m as [|m IHm]; [reflexivity|].
    rewrite ssum_S, <- IHm, ssum_0. ring.
  - rewrite ssum_S, IH, <- ssum_plus. apply ssum_ext. intros j _.
    rewrite ssum_S. reflexivity.
Qed.

Lemma ssum_nonneg (n : nat) (f : nat -> R) :
  (forall i, 0 <= f i) -> 0 <= ssum n f.
Proof.
  intros Hf. induction n as [|n IH]; [rewrite ssum_0; lra|].
  rewrite ssum_S. specialize (Hf n). lra.
Qed.

Lemma ssum_term_le (n : nat) (f : nat -> R) (u : nat) :
  (forall i, 0 <= f i) -> (u < n)%nat -> f u <= ssum n f.
Proof.
  intros Hf. induction n as [|n IH]; intros Hu; [lia|].
  rewrite ssum_S. pose proof (@ssum_nonneg n f Hf) as Hs.
  destruct (Nat.eq_dec u n) as [->|Hne].
  - lra.
  - specialize (IH ltac:(lia)). specialize (Hf n). lra.
Qed.

Lemma softmax_row_bounds (V : nat) (g : nat -> R) (u : nat) :
  (u < V)%nat -> 0 < softmax_row V g u <= 1.
Proof.
  intros Hu. unfold softmax_row. cbn [sdiv sexp RScalar].
  assert (Hpos : 0 < ssum V (fun j => exp (g j)))
    by (apply ssum_pos; [intros i; apply exp_pos|lia]).
  assert (Hle : exp (g u) <= ssum V (fun j => exp (g j))).
  { apply (@ssum_term_le V (fun j => exp (g j)) u); [|exact Hu].
    intros i. left. apply exp_pos. }
  pose proof (exp_pos (g u)) as He. split.
  - apply Rdiv_lt_0_compat; assumption.
  - apply Rmult_le_reg_r with (r := ssum V (fun j => exp (g j)));
      [exact Hpos|].
    unfold Rdiv. rewrite Rmult_assoc, Rinv_l by lra. lra.
Qed.

(** X10: in exact arithmetic, for every batch size the returned matrix is
    row-stochastic along its last axis: every entry lies in (0, 1] and
    every row sums to 1. *)
Theorem learned_matrix_is_row_stochastic (st : St R) (x A : Tensor R)
    (Cin Cout K tk ts tp td : nat) (bs : bool) (w b wa ba wb bb : Tensor R)
    (N T V : nat) :
  self st = init Cin Cout K tk ts tp td bs w b wa ba wb bb ->
  (0 < Cin)%nat /\ (0 < Cout)%nat /\ (0 < V)%nat ->
  shape x = [N; Cin; T; V] -> shape A = [K; V; V] ->
  (0 < N)%nat -> (0 < T)%nat ->
  exists Mt KM,
    outcome (learnable_matrix x A) st = Ok Mt /\
    shape Mt = [KM; V; V]%nat /\
    forall k v, (k < KM)%nat -> (v < V)%nat ->
      (forall u, (u < V)%nat -> 0 < getd Mt [k; v; u] <= 1) /\
      ssum V (fun u => getd Mt [k; v; u]) = 1.
Proof.
  intros Hm Hpos Hx HA HN HT.
  do 2 eexists. split; [|split].
  - unfold outcome.
    erewrite learnable_matrix_run with (N := N) (T := T) by eassumption.
    reflexivity.
  - reflexivity.
  - intros k v Hk Hv. split.
    + intros u Hu.
      rewrite getd_build by (apply inrange3; assumption).
      apply softmax_row_bounds. exact Hu.
    + rewrite <- (@softmax_row_sums_to_one V
                    (affinity (self st) x T
                       (if (2 <=? N)%nat then 0%nat else k) v)) by lia.
      apply ssum_ext. intros u Hu.
      rewrite getd_build by (apply inrange3; assumption).
      reflexivity.
Qed.

Lemma softmax_row_shift (V : nat) (g : nat -> R) (d : R) (u : nat) :
  (u < V)%nat ->
  softmax_row V (fun j => g j + d) u = softmax_row V g u.
Proof.
  intros Hu. unfold softmax_row. cbn [sdiv sexp RScalar].
  assert (Hs : ssum V (fun j => exp (g j + d)) =
               ssum V (fun j => exp (g j)) * exp d).
  { rewrite <- ssum_scal_r. apply ssum_ext. intros j _. apply exp_plus. }
  rewrite Hs, exp_plus.
  assert (Hpos : 0 < ssum V (fun j => exp (g j)))
    by (apply ssum_pos; [intros i; apply exp_pos|lia]).
  pose proof (exp_pos d). field. split; lra.
Qed.

Lemma softmax_row_ext (V : nat) (g h : nat -> R) (u : nat) :
  (u < V)%nat -> (forall j, (j < V)%nat -> g j = h j) ->
  softmax_row V g u = softmax_row V h u.
Proof.
  intros Hu H. unfold softmax_row. rewrite (H u Hu). f_equal.
  apply ssum_ext. intros j Hj. rewrite (H j Hj). reflexivity.
Qed.

Lemma conv_value_bias (cin cout k s p d : nat) (wt bt x : Tensor R)
    (n o t v : nat) :
  conv_value (mkConv2d cin cout k s p d wt (Some bt)) x n o t v =
  conv_value (mkConv2d cin cout k s p d wt None) x n o t v + getd bt [o].
Proof. reflexivity. Qed.

(** Changing the bias of projection B moves every entry of a row of the
    affinity by the same amount. *)
Lemma affinity_bias_b (x : Tensor R)
    (Cin Cout K tk ts tp td : nat) (bs : bool)
    (w b wa ba wb bb bb' : Tensor R) (T n v : nat) :
  exists d, forall u,
    affinity (init Cin Cout K tk ts tp td bs w b wa ba wb bb') x T n v u =
    affinity (init Cin Cout K tk ts tp td bs w b wa ba wb bb) x T n v u + d.
Proof.
  set (m := init Cin Cout K tk ts tp td bs w b wa ba wb bb).
  exists (ssum (Cout * T) (fun j =>
            conv_value (conv_a m) x n (j / T) (j mod T) v *
            (getd bb' [(j / T)%nat] - getd bb [(j / T)%nat]))
          / INR (Cout * T)).
  intros u. unfold affinity. cbn [init out_channels conv_a conv_b].
  cbn [sdiv smul sofnat RScalar].
  unfold Rdiv. rewrite <- Rmult_plus_distr_r. f_equal.
  rewrite <- ssum_plus. apply ssum_ext. intros j _.
  unfold m. cbn [init conv_a conv_b].
  rewrite (conv_value_bias Cin Cout 1 1 0 1 wb bb').
  rewrite (conv_value_bias Cin Cout 1 1 0 1 wb bb).
  ring.
Qed.

Lemma learned_bias_b (x : Tensor R)
    (Cin Cout K tk ts tp td : nat) (bs : bool)
    (w b wa ba wb bb bb' : Tensor R) (T V n v u : nat) :
  (u < V)%nat ->
  learned (init Cin Cout K tk ts tp td bs w b wa ba wb bb') x T V n v u =
  learned (init Cin Cout K tk ts tp td bs w b wa ba wb bb) x T V n v u.
Proof.
  intros Hu. unfold learned.
  destruct (affinity_bias_b x Cin Cout K tk ts tp td bs w b wa ba wb bb bb'
              T n v) as [d Hd].
  rewrite <- (@softmax_row_shift V
                (affinity (init Cin Cout K tk ts tp td bs w b wa ba wb bb)
                   x T n v) d u Hu).
  apply softmax_row_ext; [exact Hu|]. intros j _. apply Hd.
Qed.

(** X11: in exact arithmetic the bias of projection B is inert: two units
    that differ in it alone return the same learned matrix and the same
    output (the bias moves every entry of a row of the affinity by the
    same amount, which the softmax along that row cancels). *)
Theorem projection_b_bias_is_inert (st st' : St R) (x A : Tensor R)
    (Cin Cout K tk ts tp td : nat) (bs : bool)
    (w b wa ba wb bb bb' : Tensor R) (N T V : nat) :
  self st = init Cin Cout K tk ts tp td bs w b wa ba wb bb ->
  self st' = init Cin Cout K tk ts tp td bs w b wa ba wb bb' ->
  (0 < Cin)%nat /\ (0 < Cout)%nat /\ (0 < V)%nat ->
  shape x = [N; Cin; T; V] -> shape A = [K; V; V] ->
  (0 < N)%nat -> (0 < T)%nat -> (0 < K)%nat ->
  (0 < tk)%nat -> (0 < ts)%nat -> (0 < td)%nat ->
  (td * (tk - 1) + 1 <= T + 2 * tp)%nat ->
  (exists Mt,
     outcome (learnable_matrix x A) st = Ok Mt /\
     outcome (learnable_matrix x A) st' = Ok Mt) /\
  (exists Y,
     outcome (forward x A) st = Ok (Y, A) /\
     outcome (forward x A) st' = Ok (Y, A)).
Proof.
  intros Hm Hm' Hpos Hx HA HN HT HK Htk Hts Htd Hfit. split.
  - eexists. split.
    + unfold outcome.
      erewrite learnable_matrix_run with (N := N) (T := T) by eassumption.
      reflexivity.
    + unfold outcome.
      erewrite learnable_matrix_run with (N := N) (T := T) by eassumption.
      cbn [snd]. f_equal. apply build_ext. intros idx Hidx.
      apply inrange3_inv in Hidx.
      destruct Hidx as (k & v & u & -> & Hk & Hv & Hu). cbn [ix nth].
      rewrite Hm, Hm'. apply learned_bias_b. exact Hu.
  - eexists. split.
    + unfold outcome.
      erewrite forward_run with (N := N) (T := T) (tk := tk) (ts := ts)
        (td := td) by eassumption.
      reflexivity.
    + unfold outcome.
      erewrite forward_run with (N := N) (T := T) (tk := tk) (ts := ts)
        (td := td) by eassumption.
      cbn [snd]. do 2 f_equal.
      rewrite Hm, Hm'. cbn [init conv]. apply build_ext. intros idx Hidx.
      apply inrange4_inv in Hidx.
      destruct Hidx as (n & c & t & u & -> & Hn & Hc & Ht & Hu).
      cbn [ix nth]. unfold aggregated. cbn [init kernel_size out_channels conv].
      apply ssum_ext. intros k Hk. apply ssum_ext. intros v Hv.
      f_equal. f_equal. apply learned_bias_b. exact Hu.
Qed.

(** X12: in exact arithmetic the output is the aggregation with the fixed
    adjacency plus a learned term, and the learned term applies one
    matrix (that of sample 0) to the features summed over the kernel
    partitions. *)
Theorem forward_splits_fixed_and_learned (st : St R) (x A : Tensor R)
    (Cin Cout K tk ts tp td : nat) (bs : bool) (w b wa ba wb bb : Tensor R)
    (N T V : nat) :
  self st = init Cin Cout K tk ts tp td bs w b wa ba wb bb ->
  (0 < Cin)%nat /\ (0 < Cout)%nat /\ (0 < V)%nat ->
  shape x = [N; Cin; T; V] -> shape A = [K; V; V] ->
  (0 < N)%nat -> (0 < T)%nat -> (0 < K)%nat ->
  (0 < tk)%nat -> (0 < ts)%nat -> (0 < td)%nat ->
  (td * (tk - 1) + 1 <= T + 2 * tp)%nat ->
  exists Y,
    outcome (forward x A) st = Ok (Y, A) /\
    forall n c t u,
      (n < N)%nat -> (c < Cout)%nat ->
      (t < conv_out_len (conv (self st)) T)%nat -> (u < V)%nat ->
      getd Y [n; c; t; u] =
      ssum K (fun k =>
        ssum V (fun v =>
          conv_value (conv (self st)) x n (k * Cout + c) t v
          * getd A [k; v; u]))
      + ssum V (fun v =>
          ssum K (fun k =>
            conv_value (conv (self st)) x n (k * Cout + c) t v)
          * learned (self st) x T V 0 v u).
Proof.
  intros Hm Hpos Hx HA HN HT HK Htk Hts Htd Hfit.
  eexists. split.
  - unfold outcome.
    erewrite forward_run with (N := N) (T := T) (tk := tk) (ts := ts)
      (td := td) by eassumption.
    reflexivity.
  - intros n c t u Hn Hc Ht Hu.
    rewrite getd_build by (apply inrange4; assumption).
    cbn [ix nth]. unfold aggregated.
    replace (kernel_size (self st)) with K by (rewrite Hm; reflexivity).
    replace (out_channels (self st)) with Cout by (rewrite Hm; reflexivity).
    cbn [smul sadd RScalar].
    rewrite (@ssum_ext _ _ K _
               (fun k =>
                  ssum V (fun v =>
                    conv_value (conv (self st)) x n (k * Cout + c) t v
                    * getd A [k; v; u])
                  + ssum V (fun v =>
                      conv_value (conv (self st)) x n (k * Cout + c) t v
                      * learned (self st) x T V 0 v u))).
    2:{ intros k _. rewrite <- ssum_plus. apply ssum_ext. intros v _. ring. }
    rewrite ssum_plus. f_equal.
    rewrite ssum_swap. apply ssum_ext. intros v _.
    rewrite ssum_scal_r. reflexivity.
Qed.

Lemma learned_single_node (m : Module R) (x : Tensor R) (T n : nat) :
  learned m x T 1 n 0 0 = 1.
Proof.
  pose proof (@softmax_row_sums_to_one 1 (affinity m x T n 0)
                ltac:(lia)) as H.
  rewrite ssum_S, ssum_0 in H. unfold learned. lra.
Qed.

(** X14: on a single-node graph, in exact arithmetic, every entry of the
    learned matrix is 1 whatever the parameters and the input, and the
    output is the partition-wise sum of the features scaled by
    [A[k, 0, 0] + 1]. *)
Theorem forward_single_node_adds_one (st : St R) (x A : Tensor R)
    (Cin Cout K tk ts tp td : nat) (bs : bool) (w b wa ba wb bb : Tensor R)
    (N T : nat) :
  self st = init Cin Cout K tk ts tp td bs w b wa ba wb bb ->
  (0 < Cin)%nat /\ (0 < Cout)%nat ->
  shape x = [N; Cin; T; 1]%nat -> shape A = [K; 1; 1]%nat ->
  (0 < N)%nat -> (0 < T)%nat -> (0 < K)%nat ->
  (0 < tk)%nat -> (0 < ts)%nat -> (0 < td)%nat ->
  (td * (tk - 1) + 1 <= T + 2 * tp)%nat ->
  exists Mt Y,
    outcome (learnable_matrix x A) st = Ok Mt /\
    (forall idx, inrange (shape Mt) idx = true -> getd Mt idx = 1) /\
    outcome (forward x A) st = Ok (Y, A) /\
    forall n c t,
      (n < N)%nat -> (c < Cout)%nat ->
      (t < conv_out_len (conv (self st)) T)%nat ->
      getd Y [n; c; t; 0%nat] =
      ssum K (fun k =>
        conv_value (conv (self st)) x n (k * Cout + c) t 0
        * (getd A [k; 0; 0]%nat + 1)).
Proof.
  intros Hm Hpos Hx HA HN HT HK Htk Hts Htd Hfit.
  assert (Hpos1 : (0 < Cin)%nat /\ (0 < Cout)%nat /\ (0 < 1)%nat) by lia.
  do 2 eexists. split; [|split; [|split]].
  - unfold outcome.
    erewrite learnable_matrix_run with (N := N) (T := T) by eassumption.
    reflexivity.
  - intros idx Hidx. cbn [shape build] in Hidx.
    rewrite getd_build by exact Hidx.
    apply inrange3_inv in Hidx.
    destruct Hidx as (k & v & u & -> & Hk & Hv & Hu).
    assert (v = 0)%nat by lia. assert (u = 0)%nat by lia. subst.
    cbn [ix nth]. apply learned_single_node.
  - unfold outcome.
    erewrite forward_run with (N := N) (T := T) (tk := tk) (ts := ts)
      (td := td) by eassumption.
    reflexivity.
  - intros n c t Hn Hc Ht.
    rewrite getd_build by (apply inrange4; assumption || lia).
    cbn [ix nth]. unfold aggregated.
    replace (kernel_size (self st)) with K by (rewrite Hm; reflexivity).
    replace (out_channels (self st)) with Cout by (rewrite Hm; reflexivity).
    apply ssum_ext. intros k _.
    rewrite ssum_S, ssum_0, learned_single_node.
    cbn [smul sadd RScalar]. ring.
Qed.

End RealMore.

(** ** Instances of the further properties *)

Lemma forward_rejects_rank_witness :
  outcome (forward x_rank3 A_two) st2 = Raise ValueError /\
  final (forward x_rank3 A_two) st2 = st2.
Proof.
  apply (@forward_rejects_rank R RScalar st2 x_rank3 A_two [1; 1]);
    [reflexivity|simpl; lia].
Defined.

Lemma forward_rejects_channels_witness :
  outcome (forward x_two_channels A_two) st2 = Raise RuntimeError /\
  final (forward x_two_channels A_two) st2 =
  mkSt (self st2) (calls st2 ++ [L_conv_a]).
Proof.
  apply (@forward_rejects_channels R RScalar st2 x_two_channels A_two
           [1; 1] 1 2 1 1); [reflexivity|reflexivity|simpl; lia].
Defined.

Lemma forward_rejects_short_sequence_witness :
  outcome (forward x_one A_two) st2_k3 = Raise RuntimeError /\
  final (forward x_one A_two) st2_k3 =
  mkSt (self st2_k3) (calls st2_k3 ++ [L_conv_a; L_conv_b; L_conv]).
Proof.
  apply (@forward_rejects_short_sequence R RScalar st2_k3 x_one A_two
           1 1 2 3 1 0 1 true
           (rt [2; 1; 3; 1] [1; 1; 1; 1; 1; 1]%R) (rt [2] [0; 0]%R)
           (rt [1; 1; 1; 1] [1%R]) (rt [1] [0%R])
           (rt [1; 1; 1; 1] [1%R]) (rt [1] [0%R]) 1 1 1);
    try reflexivity; simpl; lia.
Defined.

Lemma forward_rejects_node_mismatch_witness :
  outcome (forward x_two_nodes A_233) st2 = Raise RuntimeError /\
  (2 <= 1 ->
   (exists cm, outcome (concat_matrix x_two_nodes) st2 = Ok cm) /\
   outcome (result_matrix x_two_nodes A_233) st2 = Raise RuntimeError /\
   final (forward x_two_nodes A_233) st2 =
   mkSt (self st2) (calls st2 ++ [L_conv_a; L_conv_b])) /\
  (1 = 1 ->
   exists Mt cx,
     outcome (learnable_matrix x_two_nodes A_233) st2 = Ok Mt /\
     conv2d (conv (self st2)) x_two_nodes = Ok cx /\
     tadd A_233 Mt = Raise RuntimeError /\
     final (forward x_two_nodes A_233) st2 =
     mkSt (self st2) (calls st2 ++ [L_conv_a; L_conv_b; L_conv])).
Proof.
  apply (@forward_rejects_node_mismatch R RScalar st2 x_two_nodes A_233
           1 1 2 1 1 0 1 true
           (rt [2; 1; 1; 1] [1; 1]%R) (rt [2] [0; 0]%R)
           (rt [1; 1; 1; 1] [1%R]) (rt [1] [0%R])
           (rt [1; 1; 1; 1] [1%R]) (rt [1] [0%R]) 1 1 2 3);
    try reflexivity; simpl; lia.
Defined.

Lemma forward_broadcasts_single_node_witness :
  exists Y,
    outcome (forward x_one A_233) st2 = Ok (Y, A_233) /\
    shape Y = [1; 1; 1; 3].
Proof.
  apply (@forward_broadcasts_single_node R RScalar st2 x_one A_233
           1 1 2 1 1 0 1 true
           (rt [2; 1; 1; 1] [1; 1]%R) (rt [2] [0; 0]%R)
           (rt [1; 1; 1; 1] [1%R]) (rt [1] [0%R])
           (rt [1; 1; 1; 1] [1%R]) (rt [1] [0%R]) 1 1 3);
    try reflexivity; simpl; lia.
Defined.

Lemma forward_runs_each_layer_once_witness :
  (exists Y, outcome (forward x_two A_two) st2_later = Ok (Y, A_two)) /\
  calls (final (forward x_two A_two) st2_later) =
    [L_conv; L_conv_a; L_conv_b; L_conv] /\
  (exists Mt, outcome (learnable_matrix x_two A_two) st2_later = Ok Mt) /\
  calls (final (learnable_matrix x_two A_two) st2_later) =
    [L_conv; L_conv_a; L_conv_b].
Proof.
  apply (@forward_runs_each_layer_once R RScalar st2_later x_two A_two
           1 1 2 1 1 0 1 true
           (rt [2; 1; 1; 1] [1; 1]%R) (rt [2] [0; 0]%R)
           (rt [1; 1; 1; 1] [1%R]) (rt [1] [0%R])
           (rt [1; 1; 1; 1] [1%R]) (rt [1] [0%R]) 2 1 1);
    try reflexivity; simpl; lia.
Defined.

Lemma forward_stacks_witness :
  exists Y Z,
    outcome (forward x_2365 A_255) st342 = Ok (Y, A_255) /\
    outcome (forward Y A_255) st452 = Ok (Z, A_255) /\
    shape Z = [2; 5; 2; 5].
Proof.
  apply (@forward_stacks R RScalar st342 st452 x_2365 A_255
           3 4 5 2 1 1 0 1 3 2 0 1 true true
           (fill [8; 3; 1; 1] 1%R) (fill [8] 0%R)
           (fill [4; 3; 1; 1] 1%R) (fill [4] 0%R)
           (fill [4; 3; 1; 1] 1%R) (fill [4] 0%R)
           (fill [10; 4; 3; 1] 1%R) (fill [10] 0%R)
           (fill [5; 4; 1; 1] 1%R) (fill [5] 0%R)
           (fill [5; 4; 1; 1] 1%R) (fill [5] 0%R) 2 6 5);
    try reflexivity; simpl; lia.
Defined.

Lemma forward_keeps_length_witness :
  exists Y,
    outcome (forward x_2365 A_255) st342 = Ok (Y, A_255) /\
    shape Y = [2; 4; 6; 5].
Proof.
  apply (@forward_keeps_length R RScalar st342 x_2365 A_255
           3 4 2 1 0 1 true
           (fill [8; 3; 1; 1] 1%R) (fill [8] 0%R)
           (fill [4; 3; 1; 1] 1%R) (fill [4] 0%R)
           (fill [4; 3; 1; 1] 1%R) (fill [4] 0%R) 2 6 5);
    try reflexivity; simpl; lia.
Defined.

Lemma forward_sample_depends_on_itself_and_first_witness :
  exists Y Y' s,
    outcome (forward x_three A_two) st2 = Ok (Y, A_two) /\
    outcome (forward x_three' A_two) st2 = Ok (Y', A_two) /\
    index0 Y 1 = Ok s /\ index0 Y' 1 = Ok s.
Proof.
  apply (@forward_sample_depends_on_itself_and_first R RScalar st2
           x_three x_three' A_two 1 1 2 1 1 0 1 true
           (rt [2; 1; 1; 1] [1; 1]%R) (rt [2] [0; 0]%R)
           (rt [1; 1; 1; 1] [1%R]) (rt [1] [0%R])
           (rt [1; 1; 1; 1] [1%R]) (rt [1] [0%R]) 3 1 1 1);
    try reflexivity; simpl; lia.
Defined.

Lemma learnable_matrix_ignores_temporal_conv_witness :
  outcome (learnable_matrix x_two A_two) st2 =
  outcome (learnable_matrix x_two A_two) st2_k3.
Proof.
  apply (@learnable_matrix_ignores_temporal_conv R RScalar st2 st2_k3
           x_two A_two); reflexivity.
Defined.

Lemma learned_matrix_is_row_stochastic_witness :
  exists Mt KM,
    outcome (learnable_matrix x_two A_two) st2 = Ok Mt /\
    shape Mt = [KM; 1; 1] /\
    forall k v, k < KM -> v < 1 ->
      (forall u, u < 1 -> (0 < getd Mt [k; v; u] <= 1)%R) /\
      ssum 1 (fun u => getd Mt [k; v; u]) = 1%R.
Proof.
  apply (@learned_matrix_is_row_stochastic st2 x_two A_two
           1 1 2 1 1 0 1 true
           (rt [2; 1; 1; 1] [1; 1]%R) (rt [2] [0; 0]%R)
           (rt [1; 1; 1; 1] [1%R]) (rt [1] [0%R])
           (rt [1; 1; 1; 1] [1%R]) (rt [1] [0%R]) 2 1 1);
    try reflexivity; lia.
Defined.

Lemma projection_b_bias_is_inert_witness :
  (exists Mt,
     outcome (learnable_matrix x_two A_two) st2 = Ok Mt /\
     outcome (learnable_matrix x_two A_two) st2_bias = Ok Mt) /\
  (exists Y,
     outcome (forward x_two A_two) st2 = Ok (Y, A_two) /\
     outcome (forward x_two A_two) st2_bias = Ok (Y, A_two)).
Proof.
  apply (@projection_b_bias_is_inert st2 st2_bias x_two A_two
           1 1 2 1 1 0 1 true
           (rt [2; 1; 1; 1] [1; 1]%R) (rt [2] [0; 0]%R)
           (rt [1; 1; 1; 1] [1%R]) (rt [1] [0%R])
           (rt [1; 1; 1; 1] [1%R]) (rt [1] [0%R]) (rt [1] [5%R]) 2 1 1);
    try reflexivity; simpl; lia.
Defined.

Lemma forward_splits_fixed_and_learned_witness :
  exists Y,
    outcome (forward x_two A_two) st2 = Ok (Y, A_two) /\
    forall n c t u,
      n < 2 -> c < 1 -> t < conv_out_len (conv (self st2)) 1 -> u < 1 ->
      getd Y [n; c; t; u] =
      (ssum 2 (fun k =>
         ssum 1 (fun v =>
           conv_value (conv (self st2)) x_two n (k * 1 + c) t v
           * getd A_two [k; v; u]))
       + ssum 1 (fun v =>
           ssum 2 (fun k =>
             conv_value (conv (self st2)) x_two n (k * 1 + c) t v)
           * learned (self st2) x_two 1 1 0 v u))%R.
Proof.
  apply (@forward_splits_fixed_and_learned st2 x_two A_two
           1 1 2 1 1 0 1 true
           (rt [2; 1; 1; 1] [1; 1]%R) (rt [2] [0; 0]%R)
           (rt [1; 1; 1; 1] [1%R]) (rt [1] [0%R])
           (rt [1; 1; 1; 1] [1%R]) (rt [1] [0%R]) 2 1 1);
    try reflexivity; simpl; lia.
Defined.

Lemma forward_single_node_adds_one_witness :
  exists Mt Y,
    outcome (learnable_matrix x_two A_two) st2 = Ok Mt /\
    (forall idx, inrange (shape Mt) idx = true -> getd Mt idx = 1%R) /\
    outcome (forward x_two A_two) st2 = Ok (Y, A_two) /\
    forall n c t,
      n < 2 -> c < 1 -> t < conv_out_len (conv (self st2)) 1 ->
      getd Y [n; c; t; 0] =
      ssum 2 (fun k =>
        (conv_value (conv (self st2)) x_two n (k * 1 + c) t 0
         * (getd A_two [k; 0; 0]%nat + 1))%R).
Proof.
  apply (@forward_single_node_adds_one st2 x_two A_two
           1 1 2 1 1 0 1 true
           (rt [2; 1; 1; 1] [1; 1]%R) (rt [2] [0; 0]%R)
           (rt [1; 1; 1; 1] [1%R]) (rt [1] [0%R])
           (rt [1; 1; 1; 1] [1%R]) (rt [1] [0%R]) 2 1);
    try reflexivity; simpl; lia.
Defined.
